(** * ChromeTabs: tab messaging, document playback and overview formatting

    A shallow embedding of [js/main/chrome_tabs.js].

    - JavaScript values that cross the messaging boundary are [JsValue]s;
      request objects are finite maps from property names to values.
    - A promise-returning method is a computation over a [World]: it runs
      until its promise settles and returns the settlement ([Resolved] or
      [Rejected]) together with the world it leaves behind. Handlers run
      in the order the promise chains fix; invocations that overlap are
      run by cutting a method where it waits ([styleComparisonStart]).
    - The browser (tabs, content script, storage, database, i18n) is an
      arbitrary implementation of the [HostAPI] interface; every call the
      module makes to it is appended to the world's [trace].
    - Variables captured and mutated by closures ([sum], the style [map])
      live in the world's [store].

    Assumed of the environment: the host answers every call (a callback
    that is never invoked leaves a promise pending for ever, which has no
    outcome here). *)

From stdpp Require Import gmap strings list fin_maps.
From Stdlib Require Import ZArith Lia.

Set Warnings "-register-all".

Open Scope Z_scope.

(** ** JavaScript values *)

(** Numbers are restricted to the integers and NaN: the module only tests
    numbers for truthiness, counts with them and passes them through. *)
Inductive JsValue : Type :=
| JUndefined
| JNull
| JBool (b : bool)
| JNum (n : Z)
| JNaN
| JStr (s : string)
| JArr (items : list JsValue)
| JObj (fields : gmap string JsValue).

(** A request or option object: own properties by name. *)
Abbreviation JsObject := (gmap string JsValue).

(** ToBoolean, as used by [if (v)], [!v] and [c ? a : b]. *)
Definition truthy (v : JsValue) : bool :=
  match v with
  | JUndefined | JNull | JNaN => false
  | JBool b => b
  | JNum n => negb (Z.eqb n 0)
  | JStr s => match s with EmptyString => false | String _ _ => true end
  | JArr _ | JObj _ => true
  end.

Definition falsy (v : JsValue) : bool := negb (truthy v).

(** [typeof v !== 'undefined'] *)
Definition is_defined (v : JsValue) : bool :=
  match v with JUndefined => false | _ => true end.

(** An optional string property: absent reads as [undefined]. *)
Definition js_of_opt (o : option string) : JsValue :=
  match o with Some s => JStr s | None => JUndefined end.

(** What a template literal prints for an optional string. *)
Definition template (o : option string) : string :=
  match o with Some s => s | None => "undefined" end.

(** Thrown values and rejection reasons. *)
Inductive JsError : Type :=
| Error (message : string)
| TypeError (message : string)
| Thrown (v : JsValue).

(** How a promise settles. *)
Inductive Outcome (A : Type) : Type :=
| Resolved (a : A)
| Rejected (e : JsError).
Arguments Resolved {A} a.
Arguments Rejected {A} e.

(** [rect.top]: reading a property of [null] or [undefined] throws; an
    object yields its own property, anything else has no [top]. *)
Definition js_top (rect : JsValue) : Outcome JsValue :=
  match rect with
  | JUndefined | JNull => Rejected (TypeError "Cannot read properties of null")
  | JObj o => Resolved (default JUndefined (o !! "top"))
  | _ => Resolved JUndefined
  end.

(** ** Data model *)

(** Modelled from the spec: the log entry, whose class [DB] (and with it
    the property names [DB.DOCUMENT.NAME]) is defined outside this file.
    These are the properties this module reads, named and typed as in
    the [Document] typedef the source keeps in a comment. [range] is
    only forwarded; an absent optional property is [None]. *)
Record Document : Type := {
  verb : string;
  _id : string;
  date : Z;
  range : JsValue;
  className : option string;
  text : option string;
  correspondingDocumentId : option string
}.

Record Tab : Type := {
  tab_id : Z;
  tab_url : string;
  tab_title : string
}.

(** Modelled from the spec: a style definition, one entry of the
    ordered list kept by [ChromeHighlightStorage], which is defined
    outside this file. *)
Record HighlightDefinition : Type := {
  def_className : string;
  def_title : string
}.

(** Modelled from the spec: the verbs of [DB.DOCUMENT.VERB], defined
    outside this file. *)
Module VERB.
Definition CREATE : string := "create".
Definition DELETE : string := "delete".
End VERB.

Module OVERVIEW_FORMAT.
Definition MARKDOWN : string := "markdown".
Definition MARKDOWN_NO_FOOTER : string := "markdown-no-footer".
End OVERVIEW_FORMAT.

Definition DEFAULT_SCRIPTS : list string :=
  [ "js/main/chrome_storage.js"; "js/main/chrome_highlight_storage.js";
    "js/utils.js";
    "js/stylesheet.js";
    "js/content_script/range_utils.js";
    "js/content_script/highlighter.js";
    "js/content_script/content_script.js" ].

Module MESSAGE_ID.
Definition CREATE_HIGHLIGHT : string := "create_highlight".
Definition UPDATE_HIGHLIGHT : string := "update_highlight".
Definition DELETE_HIGHLIGHT : string := "delete_highlight".
Definition GET_SELECTION_RANGE : string := "get_selection_range".
Definition GET_RANGE_TEXT : string := "get_range_text".
Definition SELECT_HIGHLIGHT : string := "select_highlight".
Definition SELECT_RANGE : string := "select_range".
Definition IS_HIGHLIGHT_IN_DOM : string := "is_highlight_in_dom".
Definition SCROLL_TO : string := "scroll_to".
Definition GET_NODE_ATTRIBUTE_VALUE : string := "get_node_attribute_value".
Definition GET_BOUNDING_CLIENT_RECT : string := "get_bounding_client_rect".
Definition GET_HOVERED_HIGHLIGHT_ID : string := "get_hovered_highlight_id".
End MESSAGE_ID.

(** [files] is a string or an array of strings. *)
Inductive Files : Type :=
| File (f : string)
| FileArray (fs : list string).

(** ** The host *)

(** What the host hands to a [chrome.tabs] callback: the value of
    [chrome.runtime.lastError] (its message, when set) and the callback's
    argument. *)
Record Callback : Type := {
  lastError : option string;
  result : JsValue
}.

(** Calls made to the outside, in the order they are made. *)
Inductive Event : Type :=
| EvSendMessage (tabId : Z) (message : JsObject)
| EvExecuteScript (tabId : Z) (details : JsObject)
| EvTabsGet (tabId : Z)
| EvStorageGetAll
| EvGetMatchingDocuments (key : string) (excludeDeletedDocs : bool)
| EvConsoleError (s : string)
| EvOnPlaybackError (doc : Document).

(** A mutable variable captured by a closure. *)
Inductive Cell : Type :=
| CNum (n : Z)
| CMap (m : gmap string nat).

Record World (Host : Type) : Type := mkWorld {
  host : Host;
  trace : list Event;
  store : list Cell
}.
Arguments mkWorld {Host} _ _ _.
Arguments host {Host} _.
Arguments trace {Host} _.
Arguments store {Host} _.

(** A promise-returning call, run to settlement. A synchronous call
    that may throw has the same shape ([Rejected] is the thrown value). *)
Definition Promise (Host A : Type) : Type := World Host -> Outcome A * World Host.

(** The browser and the collaborating classes [ChromeHighlightStorage]
    and [DB], none of which is defined in this file, over a host state
    [Host]. Every operation may read and change the host state; nothing
    is assumed about its answers. *)
Class HostAPI (Host : Type) : Type := {
  chrome_tabs_sendMessage : Z -> JsObject -> Host -> Callback * Host;
  chrome_tabs_executeScript : Z -> JsObject -> Host -> Callback * Host;
  chrome_tabs_get : Z -> Host -> option Tab * Host;
  chrome_i18n_getMessage : string -> list string -> string;
  (** [new ChromeHighlightStorage().getAll()], read at
      [ChromeHighlightStorage.KEYS.HIGHLIGHT_DEFINITIONS]; using a missing
      list throws in the handler, which is a rejection *)
  storage_getAll : Host -> Outcome (list HighlightDefinition) * Host;
  (** [new DB().getMatchingDocuments(match, { excludeDeletedDocs })] *)
  db_getMatchingDocuments : string -> bool -> Host -> Outcome (list Document) * Host;
  DB_formatMatch : string -> string;
  (** [DB.sortDocuments(docs, comparator)] *)
  DB_sortDocuments :
    list Document -> (Document -> Promise Host JsValue) -> Promise Host (list Document)
}.

(** Trace projections used to count calls: the messages delivered, the
    injections made, the number of fetches of the definitions, the
    documents reported to the failure callback, the lines logged. *)
Definition is_fetch (e : Event) : bool :=
  match e with EvStorageGetAll => true | _ => false end.

Definition sends (t : list Event) : list JsObject :=
  omap (λ e, match e with EvSendMessage _ m => Some m | _ => None end) t.
Definition injections (t : list Event) : list JsObject :=
  omap (λ e, match e with EvExecuteScript _ d => Some d | _ => None end) t.
Definition fetches (t : list Event) : nat :=
  length (filter (λ e, is_fetch e = true) t).
Definition playbackErrors (t : list Event) : list Document :=
  omap (λ e, match e with EvOnPlaybackError d => Some d | _ => None end) t.
Definition consoleErrors (t : list Event) : list string :=
  omap (λ e, match e with EvConsoleError s => Some s | _ => None end) t.

(** The failure callback of a playback, [onPlaybackError]: the caller's
    function. It receives the document, may change the host, and either
    returns ([None]; what it returns is dropped) or throws ([Some]). *)
Definition PlaybackCallback (Host : Type) : Type :=
  Document -> Host -> option JsError * Host.

(** ** Promises *)

(** [Promise.resolve(a)], or [return a] inside a handler *)
Definition resolve {Host A} (a : A) : Promise Host A := λ w, (Resolved a, w).

(** [Promise.reject(e)], or [throw e] inside a handler *)
Definition reject {Host A} (e : JsError) : Promise Host A := λ w, (Rejected e, w).

(** [p.then(f)] *)
Definition andThen {Host A B} (p : Promise Host A) (f : A -> Promise Host B) : Promise Host B :=
  λ w, match p w with
       | (Resolved a, w') => f a w'
       | (Rejected e, w') => (Rejected e, w')
       end.

(** Settle with an already computed outcome. *)
Definition settle {Host A} (o : Outcome A) : Promise Host A := λ w, (o, w).

(** A call to the host: recorded, then answered by the host. *)
Definition hostCall {Host A} (ev : Event) (f : Host -> A * Host) : Promise Host A :=
  λ w, let '(a, h) := f (host w) in
       (Resolved a, mkWorld h (trace w ++ [ev]) (store w)).

(** An output-only event. *)
Definition emit {Host} (ev : Event) : Promise Host unit :=
  λ w, (Resolved tt, mkWorld (host w) (trace w ++ [ev]) (store w)).

(** Closure-captured variables: allocation, reads and writes. *)
Definition newCell {Host} (c : Cell) : Promise Host nat :=
  λ w, (Resolved (length (store w)), mkWorld (host w) (trace w) (store w ++ [c])).

Definition numAt (s : list Cell) (l : nat) : Z :=
  match s !! l with Some (CNum n) => n | _ => 0 end.

Definition mapAt (s : list Cell) (l : nat) : gmap string nat :=
  match s !! l with Some (CMap m) => m | _ => ∅ end.

Definition readNum {Host} (l : nat) : Promise Host Z :=
  λ w, (Resolved (numAt (store w) l), w).

Definition readMap {Host} (l : nat) : Promise Host (gmap string nat) :=
  λ w, (Resolved (mapAt (store w) l), w).

Definition writeCell {Host} (l : nat) (c : Cell) : Promise Host unit :=
  λ w, (Resolved tt, mkWorld (host w) (trace w) (<[l := c]> (store w))).

Declare Scope promise_scope.
Delimit Scope promise_scope with promise.
Notation "'let*' x := p 'in' k" := (andThen p (λ x, k))
  (at level 10, x pattern, p at level 200, k at level 200) : promise_scope.
Notation "p ;; k" := (andThen p (λ _, k))
  (at level 100, k at level 200, right associativity) : promise_scope.
Open Scope promise_scope.

Section Methods.
Context {Host : Type} `{!HostAPI Host}.

(** [this.tabId] *)
Variable tabId : Z.

(** Modelled from the spec: [PromiseUtils.serial], which is defined outside
    this file. It runs the thunks one at a time, each after the previous
    has settled; the first failure fails the run and later thunks do not
    run; success carries the results in input order. *)
Fixpoint serial {A} (pfuncs : list (Promise Host A)) : Promise Host (list A) :=
  match pfuncs with
  | [] => resolve []
  | pfunc :: rest =>
      let* r := pfunc in
      let* rs := serial rest in
      resolve (r :: rs)
  end.

(** [get()] *)
Definition get : Promise Host (option Tab) :=
  hostCall (EvTabsGet tabId) (chrome_tabs_get tabId).

(** The non-array branch of [executeScript]: one call of
    [chrome.tabs.executeScript] with [Object.assign({file: files}, details)]. *)
Definition executeScriptFile (file : string) (details : JsObject) : Promise Host JsValue :=
  let arg : JsObject := details ∪ {[ "file" := JStr file ]} in
  let* cb := hostCall (EvExecuteScript tabId arg) (chrome_tabs_executeScript tabId arg) in
  match lastError cb with
  | Some message => reject (Error message)
  | None => resolve (result cb)
  end.

(** [executeScript(files, details = {})] *)
Definition executeScript (files : Files) (details : JsObject) : Promise Host JsValue :=
  match files with
  | FileArray fs =>
      let pfuncs := map (λ f, executeScriptFile f details) fs in
      let* rs := serial pfuncs in
      resolve (JArr rs)
  | File f => executeScriptFile f details
  end.

(** [executeDefaultScript(details = {})] *)
Definition executeDefaultScript (details : JsObject) : Promise Host JsValue :=
  executeScript (FileArray DEFAULT_SCRIPTS) details.

(** [sendMessageInternal(message)] *)
Definition sendMessageInternal (message : JsObject) : Promise Host JsValue :=
  let* cb := hostCall (EvSendMessage tabId message) (chrome_tabs_sendMessage tabId message) in
  match lastError cb with
  | Some m => reject (Error m)
  | None =>
      if is_defined (result cb) then resolve (result cb)
      else reject (Error "Undefined response")
  end.

(** [sendMessage(message, { executeDefaultScript = false } = {})].
    [inject] is the option [executeDefaultScript]. The [Rejected] branch
    is the [catch] handler, from which the method calls itself; [fuel]
    bounds the depth of these calls and [None] means the bound was
    reached. *)
Fixpoint sendMessageFuel (fuel : nat) (message : JsObject) (inject : bool)
  (w : World Host) : option (Outcome JsValue * World Host) :=
  match fuel with
  | O => None
  | S fuel' =>
      match ((if inject then executeDefaultScript ∅ else resolve JUndefined) ;;
             sendMessageInternal message) w with
      | (Resolved r, w') => Some (Resolved r, w')
      | (Rejected e, w') =>
          if negb inject then sendMessageFuel fuel' message true w'
          else Some (Rejected e, w')
      end
  end.

(** Two levels are all the method ever uses ([sendMessageFuel_enough]). *)
Definition sendMessageOpt (message : JsObject) (inject : bool) : Promise Host JsValue :=
  λ w, default (Rejected (Error "unreachable"), w) (sendMessageFuel 2 message inject w).

(** [sendMessage(message)], as every caller in this file invokes it *)
Definition sendMessage (message : JsObject) : Promise Host JsValue :=
  sendMessageOpt message false.


(** ** Highlight commands *)

(** [createHighlight(range, className, highlightId)] *)
Definition createHighlight (range className highlightId : JsValue) : Promise Host JsValue :=
  sendMessage {[ "id" := JStr MESSAGE_ID.CREATE_HIGHLIGHT;
                 "range" := range;
                 "highlightId" := highlightId;
                 "className" := className ]}.

(** [updateHighlight(highlightId, className)] *)
Definition updateHighlight (highlightId className : JsValue) : Promise Host JsValue :=
  sendMessage {[ "id" := JStr MESSAGE_ID.UPDATE_HIGHLIGHT;
                 "highlightId" := highlightId;
                 "className" := className ]}.

(** [deleteHighlight(highlightId)] *)
Definition deleteHighlight (highlightId : JsValue) : Promise Host JsValue :=
  sendMessage {[ "id" := JStr MESSAGE_ID.DELETE_HIGHLIGHT;
                 "highlightId" := highlightId ]}.

(** [getSelectionRange()] *)
Definition getSelectionRange : Promise Host JsValue :=
  sendMessage {[ "id" := JStr MESSAGE_ID.GET_SELECTION_RANGE ]}.

(** [getRangeText(xrange)] *)
Definition getRangeText (xrange : JsValue) : Promise Host JsValue :=
  sendMessage {[ "id" := JStr MESSAGE_ID.GET_RANGE_TEXT;
                 "xrange" := xrange ]}.

(** [selectHighlight(highlightId)] *)
Definition selectHighlight (highlightId : JsValue) : Promise Host JsValue :=
  let message : JsObject := {[ "id" := JStr MESSAGE_ID.SELECT_HIGHLIGHT ]} in
  let message :=
    if truthy highlightId then <[ "highlightId" := highlightId ]> message
    else message in
  sendMessage message.

(** [selectRange(xrange)] *)
Definition selectRange (xrange : JsValue) : Promise Host JsValue :=
  let message : JsObject := {[ "id" := JStr MESSAGE_ID.SELECT_RANGE ]} in
  let message :=
    if truthy xrange then <[ "xrange" := xrange ]> message
    else message in
  sendMessage message.

(** [isHighlightInDOM(highlightId)] *)
Definition isHighlightInDOM (highlightId : JsValue) : Promise Host JsValue :=
  sendMessage {[ "id" := JStr MESSAGE_ID.IS_HIGHLIGHT_IN_DOM;
                 "highlightId" := highlightId ]}.

(** [scrollToHighlight(highlightId)] *)
Definition scrollToHighlight (highlightId : JsValue) : Promise Host JsValue :=
  sendMessage {[ "id" := JStr MESSAGE_ID.SCROLL_TO;
                 "fragment" := highlightId ]}.

(** [getNodeAttributeValue(xpathExpression, attributeName)] *)
Definition getNodeAttributeValue (xpathExpression attributeName : JsValue)
  : Promise Host JsValue :=
  sendMessage {[ "id" := JStr MESSAGE_ID.GET_NODE_ATTRIBUTE_VALUE;
                 "xpathExpression" := xpathExpression;
                 "attributeName" := attributeName ]}.

(** [getHighlightBoundingClientRect(highlightId)] *)
Definition getHighlightBoundingClientRect (highlightId : JsValue) : Promise Host JsValue :=
  sendMessage {[ "id" := JStr MESSAGE_ID.GET_BOUNDING_CLIENT_RECT;
                 "highlightId" := highlightId ]}.

(** [getHoveredHighlightID()] *)
Definition getHoveredHighlightID : Promise Host JsValue :=
  sendMessage {[ "id" := JStr MESSAGE_ID.GET_HOVERED_HIGHLIGHT_ID ]}.

(** ** Document playback *)

(** The main promise of one playback step: the [switch] on the verb.
    [sum] is the cell of the captured counter. *)
Definition playbackOperation (sum : nat) (doc : Document) : Promise Host JsValue :=
  if decide (verb doc = VERB.CREATE) then
    (let* n := readNum sum in writeCell sum (CNum (n + 1))) ;;
    createHighlight (range doc) (js_of_opt (className doc)) (JStr (_id doc))
  else if decide (verb doc = VERB.DELETE) then
    (let* n := readNum sum in writeCell sum (CNum (n - 1))) ;;
    deleteHighlight (js_of_opt (correspondingDocumentId doc))
  else
    emit (EvConsoleError "unknown verb") ;;
    resolve (JBool false).

(** One playback step: the main promise and its wrapper. The call of
    the callback is not guarded: what the callback throws is thrown by
    the handler and rejects the step. *)
Definition playbackStep (sum : nat) (onPlaybackError : option (PlaybackCallback Host))
  (doc : Document) : Promise Host JsValue :=
  let promise := playbackOperation sum doc in
  let* ok := promise in
  (if negb (truthy ok) then
     match onPlaybackError with
     | Some f =>
         let* thrown := hostCall (EvOnPlaybackError doc) (f doc) in
         match thrown with
         | Some e => reject e
         | None => resolve tt
         end
     | None => resolve tt
     end
   else resolve tt) ;;
  resolve JUndefined.

(** [playbackDocuments(documents, onPlaybackError)] *)
Definition playbackDocuments (documents : list Document)
  (onPlaybackError : option (PlaybackCallback Host)) : Promise Host Z :=
  let* sum := newCell (CNum 0) in
  serial (map (playbackStep sum onPlaybackError) documents) ;;
  readNum sum.

(** ** Comparison functions *)

(** [new ChromeHighlightStorage().getAll()] followed by the read of the
    definitions *)
Definition getAllDefinitions : Promise Host (list HighlightDefinition) :=
  let* items := hostCall EvStorageGetAll storage_getAll in
  settle items.

(** [items.forEach(({className}, index) => map.set(className, index))],
    from position [index] on *)
Fixpoint setRanks (items : list HighlightDefinition) (index : nat)
  (map : gmap string nat) : gmap string nat :=
  match items with
  | [] => map
  | d :: rest => setRanks rest (S index) (<[ def_className d := index ]> map)
  end.

(** [map.get(doc.className)] as a value; no definition is stored under
    an absent class name *)
Definition mapGet (map : gmap string nat) (className : option string) : JsValue :=
  match className ≫= (map !!.) with
  | Some index => JNum (Z.of_nat index)
  | None => JUndefined
  end.

(** The function returned for ["location"] *)
Definition locationComparison (doc : Document) : Promise Host JsValue :=
  let* rect :=
    (let* isInDOM := isHighlightInDOM (JStr (_id doc)) in
     if truthy isInDOM then getHighlightBoundingClientRect (JStr (_id doc))
     else reject (Error ""))
  in settle (js_top rect).

(** The function returned for ["style"]; [map] is the cell of the
    captured [Map]. *)
Definition styleComparison (map : nat) (doc : Document) : Promise Host JsValue :=
  let* m := readMap map in
  if (size m =? 0)%nat then
    (let* items := getAllDefinitions in
     let* m := readMap map in
     writeCell map (CMap (setRanks items 0 m))) ;;
    let* m := readMap map in
    resolve (mapGet m (className doc))
  else
    resolve (mapGet m (className doc)).

(** The same function cut where it waits for the fetch, to run
    invocations that overlap: [styleComparisonStart] is the part that
    runs when the function is called (the test of the map and, on an
    empty map, the call that starts the fetch, whose answer is kept),
    [styleComparisonFinish] the handlers that run once the fetch has
    answered. *)
Inductive Waiting : Type :=
| Answered (v : JsValue)
| Fetching (items : Outcome (list HighlightDefinition)).

Definition styleComparisonStart (map : nat) (doc : Document) : Promise Host Waiting :=
  let* m := readMap map in
  if (size m =? 0)%nat then
    let* items := hostCall EvStorageGetAll storage_getAll in
    resolve (Fetching items)
  else
    resolve (Answered (mapGet m (className doc))).

Definition styleComparisonFinish (map : nat) (doc : Document) (p : Waiting)
  : Promise Host JsValue :=
  match p with
  | Answered v => resolve v
  | Fetching items =>
      (let* items := settle items in
       let* m := readMap map in
       writeCell map (CMap (setRanks items 0 m))) ;;
      let* m := readMap map in
      resolve (mapGet m (className doc))
  end.

(** [getComparisonFunction(sortby)]; a rejection is the synchronous
    [throw]. *)
Definition getComparisonFunction (sortby : string)
  : Promise Host (Document -> Promise Host JsValue) :=
  if decide (sortby = "time") then
    resolve (λ doc, resolve (JNum (date doc)))
  else if decide (sortby = "location") then
    resolve locationComparison
  else if decide (sortby = "style") then
    let* map := newCell (CMap ∅) in
    resolve (styleComparison map)
  else
    reject (Thrown (JStr "Unknown type")).

(** ** Overview *)

(** The newline character *)
Definition nl : string := String (Ascii.ascii_of_nat 10) "".

(** [titles.get(className)] *)
Definition titlesGet (titles : gmap string string) (className : option string)
  : option string :=
  className ≫= (titles !!.).

(** The body of the [for] loop over the documents: the state is
    [(markdown, currentClassName)]. *)
Definition overviewItem (titles : gmap string string)
  (state : string * option string) (doc : Document) : string * option string :=
  let '(markdown, currentClassName) := state in
  let '(markdown, currentClassName) :=
    if decide (className doc ≠ currentClassName) then
      (markdown +:+ nl +:+ nl +:+ "## " +:+ template (titlesGet titles (className doc)),
       className doc)
    else
      (markdown +:+ nl, currentClassName) in
  (markdown +:+ nl +:+ "* " +:+ template (text doc), currentClassName).

(** The footer text *)
Definition overviewFooter : string :=
  nl +:+ nl +:+ "---" +:+ nl +:+
  chrome_i18n_getMessage "overview_footer"
    [ chrome_i18n_getMessage "extension_name" [];
      chrome_i18n_getMessage "extension_webstore_url" [];
      chrome_i18n_getMessage "copyright_year" [];
      chrome_i18n_getMessage "extension_author" [];
      chrome_i18n_getMessage "extension_author_url" [] ].

(** The [switch (format)] of the last handler *)
Definition overviewText (format : string) (tab : Tab) (titles : gmap string string)
  (docs : list Document) : Promise Host string :=
  if decide (format = OVERVIEW_FORMAT.MARKDOWN ∨ format = OVERVIEW_FORMAT.MARKDOWN_NO_FOOTER) then
    let markdown := "# [" +:+ tab_title tab +:+ "](" +:+ tab_url tab +:+ ")" in
    let '(markdown, _) := fold_left (overviewItem titles) docs (markdown, None) in
    let markdown :=
      if decide (format ≠ OVERVIEW_FORMAT.MARKDOWN_NO_FOOTER) then markdown +:+ overviewFooter
      else markdown in
    resolve markdown
  else
    reject (Error "unknown format").

(** The handlers before the [switch]: the tab, the title of each class
    name, and the documents in their final order. A missing tab makes
    [tab.url] throw. *)
Definition overviewDocuments (comparator : option (Document -> Promise Host JsValue))
  (invert : bool) : Promise Host (Tab * gmap string string * list Document) :=
  let* t := get in
  let* definitions := getAllDefinitions in
  let titles :=
    fold_left (λ titles d, <[ def_className d := def_title d ]> titles) definitions ∅ in
  let* tab :=
    match t with
    | Some tab => resolve tab
    | None => reject (TypeError "Cannot read properties of undefined")
    end in
  let* docs :=
    hostCall (EvGetMatchingDocuments (DB_formatMatch (tab_url tab)) true)
             (db_getMatchingDocuments (DB_formatMatch (tab_url tab)) true) in
  let* docs := settle docs in
  let* docs :=
    match comparator with
    | Some c => DB_sortDocuments docs c
    | None => resolve docs
    end in
  let docs := if invert then rev docs else docs in
  resolve (tab, titles, docs).

(** [getFormattedOverviewText(format, comparator, invert)] *)
Definition getFormattedOverviewText (format : string)
  (comparator : option (Document -> Promise Host JsValue)) (invert : bool)
  : Promise Host string :=
  let* r := overviewDocuments comparator invert in
  let '(tab, titles, docs) := r in
  overviewText format tab titles docs.

(** ** Notions used to state the properties *)

(** Playback of [documents] from world [w] with counter cell [sum]
    meets no rejecting operation: every main promise resolves, in the
    world its predecessors leave behind. *)
Fixpoint operationsSettle (sum : nat) (onPlaybackError : option (PlaybackCallback Host))
  (documents : list Document) (w : World Host) : bool :=
  match documents with
  | [] => true
  | doc :: rest =>
      match playbackOperation sum doc w with
      | (Resolved _, _) =>
          operationsSettle sum onPlaybackError rest
            (playbackStep sum onPlaybackError doc w).2
      | (Rejected _, _) => false
      end
  end.

(** The step of [doc] from world [w] invokes the callback and the
    callback throws. *)
Definition callbackThrows (sum : nat) (onPlaybackError : option (PlaybackCallback Host))
  (doc : Document) (w : World Host) : bool :=
  match playbackOperation sum doc w, onPlaybackError with
  | (Resolved ok, w1), Some f =>
      negb (truthy ok) && bool_decide (is_Some (f doc (host w1)).1)
  | _, _ => false
  end.

(** Whenever playback of [documents] from world [w] invokes the
    callback, the callback returns. *)
Fixpoint callbackReturns (sum : nat) (onPlaybackError : option (PlaybackCallback Host))
  (documents : list Document) (w : World Host) : bool :=
  match documents with
  | [] => true
  | doc :: rest =>
      negb (callbackThrows sum onPlaybackError doc w)
      && callbackReturns sum onPlaybackError rest
           (playbackStep sum onPlaybackError doc w).2
  end.

(** What the host answers while [files] are injected in turn with
    options [details], from host state [h]: the answers up to and
    including the first that sets [lastError], and the host state they
    leave. *)
Fixpoint injectAnswers (details : JsObject) (files : list string) (h : Host)
  : list Callback * Host :=
  match files with
  | [] => ([], h)
  | f :: rest =>
      let '(cb, h1) := chrome_tabs_executeScript tabId (details ∪ {[ "file" := JStr f ]}) h in
      match lastError cb with
      | Some _ => ([cb], h1)
      | None => let '(cbs, h2) := injectAnswers details rest h1 in (cb :: cbs, h2)
      end
  end.

(** Every fetch of the definitions made while the style comparison of
    cell [map] is invoked on [docs] in turn, from world [w], answers
    with the empty list. *)
Fixpoint fetchesAnswerEmpty (map : nat) (docs : list Document) (w : World Host) : bool :=
  match docs with
  | [] => true
  | doc :: rest =>
      match storage_getAll (host w) with
      | (Resolved [], _) => fetchesAnswerEmpty map rest (styleComparison map doc w).2
      | _ => false
      end
  end.

(** The events of injecting [files] in order with options [details] *)
Definition injectEvents (details : JsObject) (files : list string) : list Event :=
  map (λ f, EvExecuteScript tabId (details ∪ {[ "file" := JStr f ]})) files.

End Methods.

(** Events of the messenger only: deliveries and injections *)
Definition messengerEvent (e : Event) : Prop :=
  match e with
  | EvSendMessage _ _ | EvExecuteScript _ _ => True
  | _ => False
  end.

(** What one document adds to the playback counter *)
Definition verbDelta (doc : Document) : Z :=
  if decide (verb doc = VERB.CREATE) then 1
  else if decide (verb doc = VERB.DELETE) then -1
  else 0.

(** The number of documents with verb [v] *)
Definition countVerb (v : string) (documents : list Document) : nat :=
  length (filter (λ doc, verb doc = v) documents).

(** The rank the style comparison gives a class name: the index of its
    definition in the list, the last one should it occur more than
    once; [index] is the position of the head of [items]. *)
Fixpoint rankFrom (items : list HighlightDefinition) (index : nat) (className : string)
  : option nat :=
  match items with
  | [] => None
  | d :: rest =>
      match rankFrom rest (S index) className with
      | Some i => Some i
      | None => if decide (def_className d = className) then Some index else None
      end
  end.

Definition rankValue (items : list HighlightDefinition) (className : option string) : JsValue :=
  match className ≫= rankFrom items 0 with
  | Some i => JNum (Z.of_nat i)
  | None => JUndefined
  end.

(** The overview body as the specification words it: for each entry in
    order, a subheading when its class name differs from the previous
    entry's ([previous], [undefined] before the first entry), a blank
    line otherwise, then the entry's text as a list item. *)
Fixpoint overviewEntries (titles : gmap string string) (previous : option string)
  (docs : list Document) : string :=
  match docs with
  | [] => ""
  | doc :: rest =>
      (if decide (className doc ≠ previous)
       then nl +:+ nl +:+ "## " +:+ template (titlesGet titles (className doc))
       else nl)
      +:+ nl +:+ "* " +:+ template (text doc)
      +:+ overviewEntries titles (className doc) rest
  end.

(** The top-level heading *)
Definition overviewHeading (tab : Tab) : string :=
  "# [" +:+ tab_title tab +:+ "](" +:+ tab_url tab +:+ ")".

(** ** A scripted host

    A host whose answers are fixed in advance, used to run the methods on
    concrete inputs. *)

Module Scripted.

Record Host : Type := mkHost {
  (** answers to [chrome.tabs.sendMessage], in order; once they run out
      there is no receiving end *)
  replies : list Callback;
  (** answers to [chrome.tabs.executeScript], in order; once they run
      out every injection succeeds *)
  injectReplies : list Callback;
  theTab : option Tab;
  definitions : list HighlightDefinition;
  documents : list Document
}.

Definition noReceiver : Callback :=
  {| lastError := Some "Could not establish connection. Receiving end does not exist.";
     result := JUndefined |}.

Definition answer (v : JsValue) : Callback := {| lastError := None; result := v |}.

Definition sendMessage_ (h : Host) : Callback * Host :=
  match replies h with
  | [] => (noReceiver, h)
  | c :: rest => (c, mkHost rest (injectReplies h) (theTab h) (definitions h) (documents h))
  end.

Definition executeScript_ (h : Host) : Callback * Host :=
  match injectReplies h with
  | [] => (answer (JArr []), h)
  | c :: rest => (c, mkHost (replies h) rest (theTab h) (definitions h) (documents h))
  end.

(** Stable insertion by key, smallest first. *)
Fixpoint insertByKey (k : Z) (d : Document) (sorted : list (Z * Document))
  : list (Z * Document) :=
  match sorted with
  | [] => [(k, d)]
  | (k', d') :: rest =>
      if (k <? k')%Z then (k, d) :: (k', d') :: rest
      else (k', d') :: insertByKey k d rest
  end.

Definition keyOf (v : JsValue) : Z := match v with JNum n => n | _ => 0 end.

Definition sortDocuments_ (docs : list Document)
  (comparator : Document -> Promise Host JsValue) : Promise Host (list Document) :=
  let* keys := (fix keysOf (ds : list Document) : Promise Host (list JsValue) :=
                  match ds with
                  | [] => resolve []
                  | d :: rest =>
                      let* k := comparator d in
                      let* ks := keysOf rest in
                      resolve (k :: ks)
                  end) docs in
  resolve (map snd (fold_right (λ kd acc, insertByKey (keyOf kd.1) kd.2 acc) []
                      (zip keys docs))).

#[global] Instance api : HostAPI Host := {|
  chrome_tabs_sendMessage _ _ h := sendMessage_ h;
  chrome_tabs_executeScript _ _ h := executeScript_ h;
  chrome_tabs_get _ h := (theTab h, h);
  chrome_i18n_getMessage key args := key;
  storage_getAll h := (Resolved (definitions h), h);
  db_getMatchingDocuments _ _ h := (Resolved (documents h), h);
  DB_formatMatch url := url;
  DB_sortDocuments := sortDocuments_
|}.

Definition world (h : Host) : World Host := mkWorld h [] [].

(** Sample data *)
Definition page : Tab :=
  {| tab_id := 7; tab_url := "https://example.org/"; tab_title := "Example" |}.

Definition styles : list HighlightDefinition :=
  [ {| def_className := "red"; def_title := "Red" |};
    {| def_className := "blue"; def_title := "Blue" |} ].

Definition xrange : JsValue :=
  JObj {[ "startContainerPath" := JStr "/html/body/p[1]/text()";
          "startOffset" := JNum 0;
          "endContainerPath" := JStr "/html/body/p[1]/text()";
          "endOffset" := JNum 5 ]}.

Definition docA : Document :=
  {| verb := "create"; _id := "a"; date := 10; range := xrange;
     className := Some "red"; text := Some "A"; correspondingDocumentId := None |}.

Definition docB : Document :=
  {| verb := "create"; _id := "b"; date := 5; range := xrange;
     className := Some "red"; text := Some "B"; correspondingDocumentId := None |}.

Definition docC : Document :=
  {| verb := "create"; _id := "c"; date := 7; range := xrange;
     className := Some "blue"; text := Some "C"; correspondingDocumentId := None |}.

Definition docDeleteA : Document :=
  {| verb := "delete"; _id := "d"; date := 11; range := JUndefined;
     className := None; text := None; correspondingDocumentId := Some "a" |}.

Definition docUpdate : Document :=
  {| verb := "update"; _id := "u"; date := 12; range := JUndefined;
     className := None; text := None; correspondingDocumentId := Some "a" |}.

(** A failure callback that leaves the host alone and returns *)
Definition report : PlaybackCallback Host := λ _ h, (None, h).

(** A failure callback that throws *)
Definition refuse : PlaybackCallback Host := λ _ h, (Some (Error "report failed"), h).

(** A page whose content script answers each request with the next of
    [answers] *)
Definition answering (answers : list JsValue) : Host :=
  mkHost (map answer answers) [] (Some page) styles [docA; docB; docC].

(** A page without content script, where injection succeeds and the
    script then answers with [answers] *)
Definition injecting (answers : list JsValue) : Host :=
  mkHost (noReceiver :: map answer answers) [] (Some page) styles [docA; docB; docC].

(** A page where nothing can be injected *)
Definition restricted : Host :=
  mkHost [] [ {| lastError := Some "Cannot access a chrome:// URL"; result := JUndefined |} ]
    (Some page) styles [].

(** A store without highlight definitions *)
Definition unstyled : Host := mkHost [] [] (Some page) [] [].

End Scripted.

(** ** Further notions *)

(** The request a playback step sends for a document: the message of
    [createHighlight] or [deleteHighlight] with the arguments the step
    passes; none for an unknown verb. *)
Definition playbackRequest (doc : Document) : option JsObject :=
  if decide (verb doc = VERB.CREATE) then
    Some {[ "id" := JStr MESSAGE_ID.CREATE_HIGHLIGHT;
            "range" := range doc;
            "highlightId" := JStr (_id doc);
            "className" := js_of_opt (className doc) ]}
  else if decide (verb doc = VERB.DELETE) then
    Some {[ "id" := JStr MESSAGE_ID.DELETE_HIGHLIGHT;
            "highlightId" := js_of_opt (correspondingDocumentId doc) ]}
  else None.

(** The deliveries one request may take: one, or two around an
    injection. *)
Definition deliveriesOf (request : option JsObject) (group : list JsObject) : Prop :=
  match request with
  | Some m => group = [m] ∨ group = [m; m]
  | None => group = []
  end.
(** The loop that fills [titles]: the display title of each class name,
    the definitions taken in list order. *)
Definition overviewTitles (definitions : list HighlightDefinition) : gmap string string :=
  fold_left (λ titles d, <[ def_className d := def_title d ]> titles) definitions ∅.

(** A host whose style store fails a given number of times before it
    answers, on top of the scripted host. *)
Module Flaky.

Definition Host : Type := nat * Scripted.Host.

Definition getAll_ (h : Host) : Outcome (list HighlightDefinition) * Host :=
  match h.1 with
  | O => (Resolved (Scripted.definitions h.2), h)
  | S n => (Rejected (Error "storage unavailable"), (n, h.2))
  end.

#[global] Instance api : HostAPI Host := {|
  chrome_tabs_sendMessage _ _ h :=
    let '(c, s) := Scripted.sendMessage_ h.2 in (c, (h.1, s));
  chrome_tabs_executeScript _ _ h :=
    let '(c, s) := Scripted.executeScript_ h.2 in (c, (h.1, s));
  chrome_tabs_get _ h := (Scripted.theTab h.2, h);
  chrome_i18n_getMessage key args := key;
  storage_getAll := getAll_;
  db_getMatchingDocuments _ _ h := (Resolved (Scripted.documents h.2), h);
  DB_formatMatch url := url;
  DB_sortDocuments docs _ := resolve docs
|}.

End Flaky.

(** * Properties *)

Section Messenger.
Context {Host : Type} `{!HostAPI Host}.
Variable tabId : Z.

Lemma projections_app (t1 t2 : list Event) :
  sends (t1 ++ t2) = sends t1 ++ sends t2
  ∧ injections (t1 ++ t2) = injections t1 ++ injections t2
  ∧ fetches (t1 ++ t2) = (fetches t1 + fetches t2)%nat
  ∧ playbackErrors (t1 ++ t2) = playbackErrors t1 ++ playbackErrors t2
  ∧ consoleErrors (t1 ++ t2) = consoleErrors t1 ++ consoleErrors t2.
Proof.
  unfold sends, injections, fetches, playbackErrors, consoleErrors.
  rewrite !omap_app, filter_app, length_app. auto.
Qed.

Lemma messenger_projections (evs : list Event) :
  Forall messengerEvent evs →
  fetches evs = 0%nat ∧ playbackErrors evs = [] ∧ consoleErrors evs = [].
Proof.
  induction 1 as [|e evs He _ (IH1 & IH2 & IH3)]; [done|].
  destruct e; try done.
Qed.

Lemma injectEvents_messenger details files :
  Forall messengerEvent (injectEvents tabId details files).
Proof. unfold injectEvents. apply Forall_map, Forall_true. done. Qed.

Lemma injectEvents_projections details files :
  sends (injectEvents tabId details files) = []
  ∧ injections (injectEvents tabId details files)
    = map (λ f, details ∪ {[ "file" := JStr f ]}) files.
Proof.
  unfold injectEvents. induction files as [|f files [IH1 IH2]]; [done|].
  split; [exact IH1|]. cbn. f_equal. exact IH2.
Qed.

(** One delivery attempt is exactly one call of the host, whatever the
    outcome. *)
Lemma sendMessageInternal_world message w :
  ∃ h, (sendMessageInternal tabId message w).2
       = mkWorld h (trace w ++ [EvSendMessage tabId message]) (store w).
Proof.
  unfold sendMessageInternal, andThen, hostCall.
  destruct (chrome_tabs_sendMessage tabId message (host w)) as [cb h].
  exists h. destruct (lastError cb); [done|].
  destruct (is_defined (result cb)); done.
Qed.

Lemma executeScriptFile_world file details w :
  ∃ h, (executeScriptFile tabId file details w).2
       = mkWorld h (trace w ++ injectEvents tabId details [file]) (store w).
Proof.
  unfold executeScriptFile, andThen, hostCall.
  destruct (chrome_tabs_executeScript _ _ (host w)) as [cb h].
  exists h. destruct (lastError cb); done.
Qed.

(** Injecting a list of files: the files are injected in order, each at
    most once, and all of them when the run succeeds. *)
Lemma serial_executeScriptFile files details w :
  ∃ k h, (k ≤ length files)%nat
    ∧ (serial (map (λ f, executeScriptFile tabId f details) files) w).2
      = mkWorld h (trace w ++ injectEvents tabId details (take k files)) (store w)
    ∧ (∀ rs, (serial (map (λ f, executeScriptFile tabId f details) files) w).1 = Resolved rs
             → k = length files).
Proof.
  revert w. induction files as [|f files IH]; intros w.
  - exists 0%nat, (host w). cbn. rewrite app_nil_r. by destruct w.
  - cbn [map serial]. unfold andThen.
    destruct (executeScriptFile_world f details w) as [h1 Hw1].
    destruct (executeScriptFile tabId f details w) as [[r|e] w1] eqn:E1; cbn in Hw1; subst w1.
    + destruct (IH (mkWorld h1 (trace w ++ injectEvents tabId details [f]) (store w)))
        as (k & h & Hk & Hw & Hres).
      exists (S k), h.
      destruct (serial _ _) as [[rs|e] w2] eqn:E2; cbn in Hw; subst w2; cbn.
      * split; [lia|]. split; [by rewrite <- app_assoc|].
        intros _ _. f_equal. by eapply Hres.
      * split; [lia|]. split; [by rewrite <- app_assoc|].
        intros ? Hd; cbn in Hd; discriminate Hd.
    + exists 1%nat, h1. cbn. split; [lia|]. split; [by rewrite take_0|].
      intros ? Hd; cbn in Hd; discriminate Hd.
Qed.

Lemma executeDefaultScript_world details w :
  ∃ k h, (k ≤ length DEFAULT_SCRIPTS)%nat
    ∧ (executeDefaultScript tabId details w).2
      = mkWorld h (trace w ++ injectEvents tabId details (take k DEFAULT_SCRIPTS)) (store w)
    ∧ (∀ r, (executeDefaultScript tabId details w).1 = Resolved r
            → k = length DEFAULT_SCRIPTS).
Proof.
  destruct (serial_executeScriptFile DEFAULT_SCRIPTS details w) as (k & h & Hk & Hw & Hres).
  exists k, h. unfold executeDefaultScript, executeScript, andThen.
  destruct (serial _ _) as [[rs|e] w1]; cbn in *; subst w1.
  - split; [done|]. split; [done|]. intros _ _. by eapply Hres.
  - split; [done|]. split; [done|]. intros ? Hd; cbn in Hd; discriminate Hd.
Qed.

(** The two levels of [sendMessage], unfolded. *)
Lemma sendMessage_unfold message w :
  sendMessage tabId message w =
  match sendMessageInternal tabId message w with
  | (Resolved r, w1) => (Resolved r, w1)
  | (Rejected _, w1) =>
      match executeDefaultScript tabId ∅ w1 with
      | (Resolved _, w2) => sendMessageInternal tabId message w2
      | (Rejected e, w2) => (Rejected e, w2)
      end
  end.
Proof.
  unfold sendMessage, sendMessageOpt. cbn [sendMessageFuel negb].
  unfold andThen at 1. unfold resolve at 1.
  destruct (sendMessageInternal tabId message w) as [[r|e] w1]; [done|].
  unfold andThen.
  destruct (executeDefaultScript tabId ∅ w1) as [[r|e2] w2]; [|done].
  by destruct (sendMessageInternal tabId message w2) as [[r'|e'] w3].
Qed.

(** The bound on the depth of the calls is never reached. *)
Lemma sendMessageFuel_enough fuel message w :
  (2 ≤ fuel)%nat →
  sendMessageFuel tabId fuel message false w = Some (sendMessage tabId message w).
Proof.
  intros Hfuel. destruct fuel as [|[|fuel]]; [lia|lia|].
  unfold sendMessage, sendMessageOpt. cbn [sendMessageFuel negb].
  unfold andThen at 1 3. unfold resolve at 1 2.
  destruct (sendMessageInternal tabId message w) as [[r|e] w1]; [done|].
  unfold andThen.
  destruct (executeDefaultScript tabId ∅ w1) as [[r|e2] w2]; [|done].
  by destruct (sendMessageInternal tabId message w2) as [[r'|e'] w3].
Qed.

(** What a send adds to the world: the store is untouched and the new
    events have one of three shapes. *)
Lemma sendMessage_world message w :
  ∃ h evs,
    (sendMessage tabId message w).2 = mkWorld h (trace w ++ evs) (store w)
    ∧ (evs = [EvSendMessage tabId message]
       ∨ (∃ k e, (k ≤ length DEFAULT_SCRIPTS)%nat
              ∧ (sendMessage tabId message w).1 = Rejected e
              ∧ evs = EvSendMessage tabId message
                      :: injectEvents tabId ∅ (take k DEFAULT_SCRIPTS))
       ∨ evs = EvSendMessage tabId message
               :: injectEvents tabId ∅ DEFAULT_SCRIPTS ++ [EvSendMessage tabId message]).
Proof.
  rewrite sendMessage_unfold.
  destruct (sendMessageInternal_world message w) as [h1 Hw1].
  destruct (sendMessageInternal tabId message w) as [[r|e] w1]; cbn [snd] in Hw1; subst w1.
  { exists h1, [EvSendMessage tabId message]. auto. }
  set (w1 := mkWorld h1 _ _).
  destruct (executeDefaultScript_world ∅ w1) as (k & h2 & Hk & Hw2 & Hres).
  destruct (executeDefaultScript tabId ∅ w1) as [[r|e2] w2]; cbn [fst snd] in Hw2, Hres; subst w2.
  - rewrite (Hres r eq_refl), firstn_all.
    set (w2 := mkWorld h2 _ _).
    destruct (sendMessageInternal_world message w2) as [h3 Hw3].
    exists h3, (EvSendMessage tabId message
                :: injectEvents tabId ∅ DEFAULT_SCRIPTS ++ [EvSendMessage tabId message]).
    split; [|auto]. rewrite Hw3. subst w2 w1. cbn [trace store].
    by rewrite <- !app_assoc.
  - exists h2, (EvSendMessage tabId message :: injectEvents tabId ∅ (take k DEFAULT_SCRIPTS)).
    subst w1. cbn [trace store fst snd].
    split; [by rewrite <- app_assoc|]. right; left. exists k, e2. eauto.
Qed.

Lemma sendMessage_store message w :
  store (sendMessage tabId message w).2 = store w.
Proof. destruct (sendMessage_world message w) as (h & evs & -> & _). done. Qed.

Lemma sendMessage_events message w :
  ∃ evs, trace (sendMessage tabId message w).2 = trace w ++ evs
         ∧ Forall messengerEvent evs.
Proof.
  destruct (sendMessage_world message w) as (h & evs & -> & Hevs).
  exists evs. split; [done|].
  destruct Hevs as [->|[(k & e & _ & _ & ->)| ->]].
  - by repeat constructor.
  - constructor; [done|]. apply injectEvents_messenger.
  - constructor; [done|]. apply Forall_app. split; [apply injectEvents_messenger|].
    by repeat constructor.
Qed.

(** A send changes neither the store nor what the trace says of
    fetches, reported documents and logged lines. *)
Lemma sendMessage_frame message w :
  let w' := (sendMessage tabId message w).2 in
  store w' = store w
  ∧ fetches (trace w') = fetches (trace w)
  ∧ playbackErrors (trace w') = playbackErrors (trace w)
  ∧ consoleErrors (trace w') = consoleErrors (trace w).
Proof.
  cbn zeta. destruct (sendMessage_events message w) as (evs & Ht & Hev).
  rewrite sendMessage_store, Ht.
  destruct (projections_app (trace w) evs) as (_ & _ & -> & -> & ->).
  destruct (messenger_projections evs Hev) as (-> & -> & ->).
  rewrite !app_nil_r. split; [done|]. split; [lia|done].
Qed.

End Messenger.

Section Playback.
Context {Host : Type} `{!HostAPI Host}.
Variable tabId : Z.
Implicit Types (w : World Host) (doc : Document) (cb : option (PlaybackCallback Host)).


Lemma numAt_insert (s : list Cell) (l : nat) (n : Z) :
  (l < length s)%nat → numAt (<[l := CNum n]> s) l = n.
Proof. intros Hl. unfold numAt. by rewrite list_lookup_insert_eq. Qed.

Lemma numAt_fresh (s : list Cell) (n : Z) : numAt (s ++ [CNum n]) (length s) = n.
Proof. unfold numAt. rewrite lookup_app_r by lia. by rewrite Nat.sub_diag. Qed.

(** The main promise, verb by verb. *)
Lemma playbackOperation_create sum doc w :
  verb doc = VERB.CREATE →
  playbackOperation tabId sum doc w =
  createHighlight tabId (range doc) (js_of_opt (className doc)) (JStr (_id doc))
    (mkWorld (host w) (trace w) (<[sum := CNum (numAt (store w) sum + 1)]> (store w))).
Proof. intros Hv. unfold playbackOperation. by rewrite decide_True. Qed.

Lemma playbackOperation_delete sum doc w :
  verb doc = VERB.DELETE →
  playbackOperation tabId sum doc w =
  deleteHighlight tabId (js_of_opt (correspondingDocumentId doc))
    (mkWorld (host w) (trace w) (<[sum := CNum (numAt (store w) sum - 1)]> (store w))).
Proof.
  intros Hv. unfold playbackOperation.
  rewrite decide_False; [|by rewrite Hv]. by rewrite decide_True.
Qed.

Lemma playbackOperation_unknown sum doc w :
  verb doc ≠ VERB.CREATE → verb doc ≠ VERB.DELETE →
  playbackOperation tabId sum doc w =
  (Resolved (JBool false),
   mkWorld (host w) (trace w ++ [EvConsoleError "unknown verb"]) (store w)).
Proof. intros Hc Hd. unfold playbackOperation. by rewrite !decide_False. Qed.

(** The counter moves by the verb's delta as soon as the step starts,
    whatever the operation answers; events other than the messenger's
    are the log line of an unknown verb. *)
Lemma playbackOperation_world sum doc w :
  (sum < length (store w))%nat →
  let w1 := (playbackOperation tabId sum doc w).2 in
  length (store w1) = length (store w)
  ∧ numAt (store w1) sum = numAt (store w) sum + verbDelta doc
  ∧ playbackErrors (trace w1) = playbackErrors (trace w).
Proof.
  intros Hsum. unfold verbDelta.
  destruct (decide (verb doc = VERB.CREATE)) as [Hc|Hc];
    [|destruct (decide (verb doc = VERB.DELETE)) as [Hd|Hd]].
  - rewrite playbackOperation_create by done. unfold createHighlight.
    set (w0 := mkWorld _ _ _).
    match goal with |- context [sendMessage tabId ?m w0] =>
      destruct (sendMessage_frame tabId m w0) as (-> & _ & -> & _) end.
    subst w0. cbn [store trace]. by rewrite length_insert, numAt_insert.
  - rewrite playbackOperation_delete by done. unfold deleteHighlight.
    set (w0 := mkWorld _ _ _).
    match goal with |- context [sendMessage tabId ?m w0] =>
      destruct (sendMessage_frame tabId m w0) as (-> & _ & -> & _) end.
    subst w0. cbn [store trace]. rewrite length_insert, numAt_insert by done.
    split; [done|]. split; [lia|done].
  - rewrite playbackOperation_unknown by done. cbn [fst snd store trace].
    destruct (projections_app (trace w) [EvConsoleError "unknown verb"])
      as (_ & _ & _ & -> & _).
    cbn. rewrite app_nil_r. split; [done|]. split; [lia|done].
Qed.

(** One step in terms of its main promise. *)
Lemma playbackStep_unfold sum cb doc w :
  playbackStep tabId sum cb doc w =
  match playbackOperation tabId sum doc w with
  | (Resolved ok, w1) =>
      if truthy ok then (Resolved JUndefined, w1)
      else match cb with
           | Some f =>
               let '(thrown, h) := f doc (host w1) in
               (match thrown with Some e => Rejected e | None => Resolved JUndefined end,
                mkWorld h (trace w1 ++ [EvOnPlaybackError doc]) (store w1))
           | None => (Resolved JUndefined, w1)
           end
  | (Rejected e, w1) => (Rejected e, w1)
  end.
Proof.
  unfold playbackStep, andThen.
  destruct (playbackOperation tabId sum doc w) as [[ok|e] w1]; [|done].
  destruct (truthy ok); cbn; [done|]. destruct cb as [f|]; [|done].
  unfold hostCall. by destruct (f doc (host w1)) as [[e|] h].
Qed.

(** A step resolves unless its operation rejects or its callback
    throws. *)
Lemma playbackStep_resolves sum cb doc w ok w1 :
  playbackOperation tabId sum doc w = (Resolved ok, w1) →
  callbackThrows tabId sum cb doc w = false →
  (playbackStep tabId sum cb doc w).1 = Resolved JUndefined.
Proof.
  intros Hop Hthrows. unfold callbackThrows in Hthrows.
  rewrite playbackStep_unfold. rewrite Hop in *.
  destruct (truthy ok); [done|]. destruct cb as [f|]; [|done].
  cbn in Hthrows. apply bool_decide_eq_false in Hthrows.
  destruct (f doc (host w1)) as [[e|] h]; [|done].
  exfalso. apply Hthrows. by eexists.
Qed.

(** A step rejects only with the rejection of its operation, or with
    what its callback throws on a falsy answer. *)
Lemma playbackStep_rejects sum cb doc w e :
  (playbackStep tabId sum cb doc w).1 = Rejected e →
  (playbackOperation tabId sum doc w).1 = Rejected e
  ∨ (∃ ok, (playbackOperation tabId sum doc w).1 = Resolved ok ∧ truthy ok = false)
    ∧ callbackThrows tabId sum cb doc w = true.
Proof.
  unfold callbackThrows. rewrite playbackStep_unfold.
  destruct (playbackOperation tabId sum doc w) as [[ok|e'] w1]; cbn [fst]; [|by left].
  destruct (truthy ok) eqn:Hok; [done|]. destruct cb as [f|]; [|done].
  destruct (f doc (host w1)) as [[e'|] h]; [|done]. intros _. right.
  split; [by eexists|]. done.
Qed.

Lemma playbackStep_world sum cb doc w :
  (sum < length (store w))%nat →
  let w2 := (playbackStep tabId sum cb doc w).2 in
  length (store w2) = length (store w)
  ∧ numAt (store w2) sum = numAt (store w) sum + verbDelta doc.
Proof.
  intros Hsum. rewrite playbackStep_unfold.
  destruct (playbackOperation_world sum doc w Hsum) as (Hl & Hn & _).
  destruct (playbackOperation tabId sum doc w) as [[ok|e] w1]; cbn in *; [|done].
  destruct (truthy ok); [done|]. destruct cb as [f|]; [|done].
  by destruct (f doc (host w1)) as [[e|] h].
Qed.

(** The net count of a list of documents, as the sum of the deltas. *)
Lemma verbDelta_sum (documents : list Document) :
  foldr (λ doc n, verbDelta doc + n) 0 documents
  = Z.of_nat (countVerb VERB.CREATE documents) - Z.of_nat (countVerb VERB.DELETE documents).
Proof.
  unfold countVerb. induction documents as [|doc documents IH]; [done|].
  cbn [foldr]. rewrite IH, !filter_cons. unfold verbDelta.
  destruct (decide (verb doc = VERB.CREATE)) as [Hc|Hc].
  - rewrite decide_False by (rewrite Hc; done). cbn [length]. lia.
  - destruct (decide (verb doc = VERB.DELETE)); cbn [length]; lia.
Qed.

(** A run whose operations all settle and whose callback returns
    whenever invoked resolves, and the counter ends at its start value
    plus the deltas. *)
Lemma playback_run_settles sum cb (documents : list Document) w :
  (sum < length (store w))%nat →
  operationsSettle tabId sum cb documents w = true →
  callbackReturns tabId sum cb documents w = true →
  ∃ rs w', serial (map (playbackStep tabId sum cb) documents) w = (Resolved rs, w')
    ∧ numAt (store w') sum
      = numAt (store w) sum + foldr (λ doc n, verbDelta doc + n) 0 documents.
Proof.
  revert w. induction documents as [|doc documents IH]; intros w Hsum Hset Hret.
  - exists [], w. cbn. split; [done|lia].
  - cbn [operationsSettle] in Hset. cbn [callbackReturns] in Hret.
    apply andb_true_iff in Hret as [Hthrow Hret]. apply negb_true_iff in Hthrow.
    cbn [map serial foldr]. unfold andThen.
    destruct (playbackStep_world sum cb doc w Hsum) as (Hl & Hn).
    destruct (playbackOperation tabId sum doc w) as [[ok|e] w1] eqn:Hop; [|done].
    pose proof (playbackStep_resolves sum cb doc w ok w1 Hop Hthrow) as Hstep.
    destruct (playbackStep tabId sum cb doc w) as [o w2]. cbn [fst snd] in *. subst o.
    destruct (IH w2) as (rs & w' & Hrun & Hnum); [lia|done|done|].
    rewrite Hrun. exists (JUndefined :: rs), w'. split; [done|]. lia.
Qed.


End Playback.

Section MessengerCounts.
Context {Host : Type} `{!HostAPI Host}.
Variable tabId : Z.

(** The deliveries and injections of one send. *)
Lemma sendMessage_deliveries message (w : World Host) :
  ∃ evs, trace (sendMessage tabId message w).2 = trace w ++ evs
    ∧ (sends evs = [message] ∨ sends evs = [message; message])
    ∧ injections evs `prefix_of` map (λ f, {[ "file" := JStr f ]}) DEFAULT_SCRIPTS.
Proof.
  assert (Hinj : ∀ k, injections (injectEvents tabId ∅ (take k DEFAULT_SCRIPTS))
                      `prefix_of` map (λ f, {[ "file" := JStr f ]}) DEFAULT_SCRIPTS).
  { intros k. destruct (injectEvents_projections tabId ∅ (take k DEFAULT_SCRIPTS)) as [_ ->].
    exists (map (λ f, {[ "file" := JStr f ]}) (drop k DEFAULT_SCRIPTS)).
    rewrite <- (take_drop k DEFAULT_SCRIPTS) at 1. rewrite map_app. f_equal. }
  destruct (sendMessage_world tabId message w) as (h & evs & -> & Hevs).
  exists evs. split; [done|].
  destruct Hevs as [->|[(k & e & _ & _ & ->)| ->]].
  - split; [by left|]. apply prefix_nil.
  - change (EvSendMessage tabId message :: ?l) with ([EvSendMessage tabId message] ++ l).
    destruct (projections_app [EvSendMessage tabId message]
                (injectEvents tabId ∅ (take k DEFAULT_SCRIPTS))) as (-> & -> & _).
    destruct (injectEvents_projections tabId ∅ (take k DEFAULT_SCRIPTS)) as [-> _].
    split; [by left|]. apply Hinj.
  - change (EvSendMessage tabId message :: ?l) with ([EvSendMessage tabId message] ++ l).
    destruct (projections_app [EvSendMessage tabId message]
                (injectEvents tabId ∅ DEFAULT_SCRIPTS ++ [EvSendMessage tabId message]))
      as (-> & -> & _).
    destruct (projections_app (injectEvents tabId ∅ DEFAULT_SCRIPTS)
                [EvSendMessage tabId message]) as (-> & -> & _).
    destruct (injectEvents_projections tabId ∅ DEFAULT_SCRIPTS) as [-> _].
    split; [by right|]. cbn [injections omap app]. rewrite app_nil_r.
    specialize (Hinj (length DEFAULT_SCRIPTS)). by rewrite firstn_all in Hinj.
Qed.

(** C1. For every message and every behaviour of the host, [sendMessage]
    is a first direct delivery attempt; only when that attempt fails does
    it inject the default scripts, once, and after a complete injection
    it retries the delivery once, the outcome of the retry being the
    outcome of the send (a failed injection is the outcome itself, with no
    retry). The calls of the method to itself never go deeper than two
    levels, so the run has one or two deliveries, all of the same
    message, and injects each default script at most once, in order:
    there is no second injection and no third delivery. *)
Theorem sendMessage_at_most_two_attempts message (w : World Host) :
  sendMessage tabId message w =
    match sendMessageInternal tabId message w with
    | (Resolved r, w1) => (Resolved r, w1)
    | (Rejected _, w1) =>
        match executeDefaultScript tabId ∅ w1 with
        | (Resolved _, w2) => sendMessageInternal tabId message w2
        | (Rejected e, w2) => (Rejected e, w2)
        end
    end
  ∧ (∀ n, sendMessageFuel tabId (2 + n) message false w
          = Some (sendMessage tabId message w))
  ∧ ∃ h evs,
      (sendMessage tabId message w).2 = mkWorld h (trace w ++ evs) (store w)
      ∧ (evs = [EvSendMessage tabId message]
         ∨ (∃ k e, (k ≤ length DEFAULT_SCRIPTS)%nat
                ∧ (sendMessage tabId message w).1 = Rejected e
                ∧ evs = EvSendMessage tabId message
                        :: injectEvents tabId ∅ (take k DEFAULT_SCRIPTS))
         ∨ evs = EvSendMessage tabId message
                 :: injectEvents tabId ∅ DEFAULT_SCRIPTS ++ [EvSendMessage tabId message])
      ∧ (1 ≤ length (sends evs) ≤ 2)%nat
      ∧ Forall (λ m, m = message) (sends evs)
      ∧ injections evs `prefix_of` map (λ f, {[ "file" := JStr f ]}) DEFAULT_SCRIPTS.
Proof.
  split; [apply sendMessage_unfold|].
  split; [intros n; apply sendMessageFuel_enough; lia|].
  destruct (sendMessage_world tabId message w) as (h & evs & Hw & Hshape).
  destruct (sendMessage_deliveries message w) as (evs' & Ht & Hs & Hi).
  rewrite Hw in Ht. cbn [trace] in Ht. apply app_inv_head in Ht. subst evs'.
  exists h, evs. split; [done|]. split; [done|].
  destruct Hs as [-> | ->]; cbn [length];
    (split; [lia|]); (split; [by repeat constructor|done]).
Qed.

(** C10. For every falsy argument (the empty string as much as
    [undefined]) [selectHighlight] sends the request without a
    [highlightId] field, exactly as it does for an absent argument, and
    [selectRange] sends the request without an [xrange] field. *)
Theorem select_falsy_omits_field (v : JsValue) (w : World Host) :
  truthy v = false →
  selectHighlight tabId v w
    = sendMessage tabId {[ "id" := JStr MESSAGE_ID.SELECT_HIGHLIGHT ]} w
  ∧ selectHighlight tabId v w = selectHighlight tabId JUndefined w
  ∧ selectRange tabId v w
    = sendMessage tabId {[ "id" := JStr MESSAGE_ID.SELECT_RANGE ]} w
  ∧ selectRange tabId v w = selectRange tabId JUndefined w
  ∧ (∃ evs, trace (selectHighlight tabId v w).2 = trace w ++ evs
       ∧ sends evs ≠ []
       ∧ Forall (λ m : JsObject, m !! "highlightId" = None) (sends evs))
  ∧ (∃ evs, trace (selectRange tabId v w).2 = trace w ++ evs
       ∧ sends evs ≠ []
       ∧ Forall (λ m : JsObject, m !! "xrange" = None) (sends evs)).
Proof.
  intros Hv. unfold selectHighlight, selectRange. rewrite Hv. cbn [truthy].
  repeat (split; [done|]).
  split.
  - destruct (sendMessage_deliveries {[ "id" := JStr MESSAGE_ID.SELECT_HIGHLIGHT ]} w)
      as (evs & Ht & Hs & _).
    exists evs. split; [done|].
    destruct Hs as [-> | ->]; (split; [done|]); by repeat constructor.
  - destruct (sendMessage_deliveries {[ "id" := JStr MESSAGE_ID.SELECT_RANGE ]} w)
      as (evs & Ht & Hs & _).
    exists evs. split; [done|].
    destruct Hs as [-> | ->]; (split; [done|]); by repeat constructor.
Qed.

End MessengerCounts.

Section PlaybackClaims.
Context {Host : Type} `{!HostAPI Host}.
Variable tabId : Z.
Implicit Types (w : World Host) (doc : Document) (cb : option (PlaybackCallback Host)).

(** C2, amended. For every playback entry whose verb is neither create
    nor delete, the step logs an error and its operation resolves to
    [false]: the counter and the rest of the store are unchanged and the
    failure callback, when one is supplied, is invoked once with the
    entry. The step succeeds, so that playback continues, when no
    callback is supplied or the callback returns; what the callback
    throws rejects the step. *)
Theorem playback_unknown_verb sum cb doc w :
  verb doc ≠ VERB.CREATE → verb doc ≠ VERB.DELETE →
  let logged := mkWorld (host w) (trace w ++ [EvConsoleError "unknown verb"]) (store w) in
  playbackOperation tabId sum doc w = (Resolved (JBool false), logged)
  ∧ playbackStep tabId sum cb doc w
    = match cb with
      | Some f =>
          (match (f doc (host w)).1 with
           | Some e => Rejected e
           | None => Resolved JUndefined
           end,
           mkWorld (f doc (host w)).2
             (trace w ++ [EvConsoleError "unknown verb"; EvOnPlaybackError doc])
             (store w))
      | None => (Resolved JUndefined, logged)
      end.
Proof.
  intros Hc Hd logged. split; [by apply playbackOperation_unknown|].
  rewrite playbackStep_unfold, playbackOperation_unknown by done.
  cbn [truthy]. destruct cb as [f|]; [|done]. cbn [host trace store].
  destruct (f doc (host w)) as [thrown h]. by rewrite <- app_assoc.
Qed.


End PlaybackClaims.

Section PlaybackCount.
Context {Host : Type} `{!HostAPI Host}.
Variable tabId : Z.

(** C4, amended. When no create or delete operation of the run rejects
    and the failure callback returns whenever it is invoked,
    [playbackDocuments] resolves to the number of create entries minus
    the number of delete entries, whatever values the operations resolved
    to; for the empty list it resolves to 0 and leaves host and trace as
    they were, having called nothing. *)
Theorem playback_net_count (cb : option (PlaybackCallback Host))
  (documents : list Document) (w : World Host) :
  (operationsSettle tabId (length (store w)) cb documents (newCell (CNum 0) w).2 = true →
   callbackReturns tabId (length (store w)) cb documents (newCell (CNum 0) w).2 = true →
   ∃ w', playbackDocuments tabId documents cb w
         = (Resolved (Z.of_nat (countVerb VERB.CREATE documents)
                      - Z.of_nat (countVerb VERB.DELETE documents)), w'))
  ∧ playbackDocuments tabId [] cb w
    = (Resolved 0, mkWorld (host w) (trace w) (store w ++ [CNum 0])).
Proof.
  split.
  - intros Hset Hret.
    destruct (playback_run_settles tabId (length (store w)) cb documents
                (newCell (CNum 0) w).2) as (rs & w' & Hrun & Hnum); [|done|done|].
    { cbn. rewrite length_app. cbn. lia. }
    exists w'. unfold playbackDocuments. unfold andThen at 1.
    cbn [newCell fst snd] in *. unfold andThen. rewrite Hrun. unfold readNum.
    rewrite Hnum, verbDelta_sum. cbn [store]. rewrite numAt_fresh.
    by rewrite Z.add_0_l.
  - unfold playbackDocuments, andThen. cbn [newCell map serial resolve].
    unfold readNum. cbn [store]. by rewrite numAt_fresh.
Qed.

End PlaybackCount.

Section Comparison.
Context {Host : Type} `{!HostAPI Host}.
Variable tabId : Z.
Implicit Types (w : World Host) (doc : Document).

Lemma setRanks_lookup (items : list HighlightDefinition) index (m : gmap string nat) c :
  setRanks items index m !! c
  = match rankFrom items index c with Some i => Some i | None => m !! c end.
Proof.
  revert index m. induction items as [|d items IH]; intros index m; [done|].
  cbn [setRanks rankFrom]. rewrite IH.
  destruct (rankFrom items (S index) c); [done|].
  destruct (decide (def_className d = c)) as [->|Hne].
  - by rewrite lookup_insert_eq.
  - by rewrite lookup_insert_ne.
Qed.

(** A rank is the position of a definition of that class name, and a
    class name without a rank has no definition. *)
Lemma rankFrom_Some (items : list HighlightDefinition) index c i :
  rankFrom items index c = Some i →
  (index ≤ i)%nat ∧ def_className <$> items !! (i - index)%nat = Some c.
Proof.
  revert index. induction items as [|d items IH]; intros index; [done|].
  cbn [rankFrom]. destruct (rankFrom items (S index) c) as [j|] eqn:Hj.
  - intros [= ->]. destruct (IH (S index) Hj) as [Hle Hlook].
    split; [lia|]. replace (i - index)%nat with (S (i - S index)) by lia. done.
  - destruct (decide (def_className d = c)) as [Hd|]; [|done].
    intros [= ->]. split; [lia|]. rewrite Nat.sub_diag. cbn. by rewrite Hd.
Qed.

Lemma rankFrom_None (items : list HighlightDefinition) index c :
  rankFrom items index c = None → c ∉ def_className <$> items.
Proof.
  revert index. induction items as [|d items IH]; intros index.
  - intros _. apply not_elem_of_nil.
  - cbn [rankFrom]. destruct (rankFrom items (S index) c) eqn:Hj; [done|].
    destruct (decide (def_className d = c)); [done|]. intros _.
    rewrite fmap_cons, not_elem_of_cons. split; [done|]. by eapply IH.
Qed.

Lemma mapGet_setRanks (items : list HighlightDefinition) (className : option string) :
  mapGet (setRanks items 0 ∅) className = rankValue items className.
Proof.
  unfold mapGet, rankValue. destruct className as [c|]; [|done]. cbn.
  rewrite setRanks_lookup, lookup_empty. by destruct (rankFrom items 0 c).
Qed.

Lemma setRanks_nonempty (items : list HighlightDefinition) index (m : gmap string nat) :
  items ≠ [] → size (setRanks items index m) ≠ 0%nat.
Proof.
  destruct items as [|d items]; [done|]. intros _ Hsize.
  apply map_size_empty_inv in Hsize.
  pose proof (setRanks_lookup (d :: items) index m (def_className d)) as Hl.
  rewrite Hsize, lookup_empty in Hl. cbn [rankFrom] in Hl.
  destruct (rankFrom items (S index) (def_className d)); [done|].
  by rewrite decide_True in Hl.
Qed.

(** An invocation with an empty map fetches the definitions and fills
    the map. *)
Lemma styleComparison_fetch cell doc w items h' :
  (cell < length (store w))%nat →
  size (mapAt (store w) cell) = 0%nat →
  storage_getAll (host w) = (Resolved items, h') →
  styleComparison cell doc w
  = (Resolved (rankValue items (className doc)),
     mkWorld h' (trace w ++ [EvStorageGetAll]) (<[cell := CMap (setRanks items 0 ∅)]> (store w))).
Proof.
  intros Hcell Hsize Hget. unfold styleComparison, andThen, readMap. cbn [fst snd].
  rewrite Hsize. cbn [Nat.eqb]. unfold getAllDefinitions, andThen, hostCall, settle.
  rewrite Hget. cbn [store trace host writeCell resolve].
  apply map_size_empty_inv in Hsize. rewrite Hsize.
  unfold mapAt at 1. rewrite list_lookup_insert_eq by done.
  by rewrite mapGet_setRanks.
Qed.

(** An invocation with a filled map answers from the map and calls
    nothing. *)
Lemma styleComparison_cached cell doc w :
  size (mapAt (store w) cell) ≠ 0%nat →
  styleComparison cell doc w = (Resolved (mapGet (mapAt (store w) cell) (className doc)), w).
Proof.
  intros Hsize. unfold styleComparison, andThen, readMap. cbn [fst snd].
  apply Nat.eqb_neq in Hsize. by rewrite Hsize.
Qed.

Lemma styleComparison_cached_run cell (docs : list Document) w :
  size (mapAt (store w) cell) ≠ 0%nat →
  serial (map (styleComparison cell) docs) w
  = (Resolved (map (λ d, mapGet (mapAt (store w) cell) (className d)) docs), w).
Proof.
  intros Hsize. induction docs as [|d docs IH]; [done|].
  cbn [map serial]. unfold andThen.
  rewrite styleComparison_cached, IH by done. done.
Qed.

End Comparison.

Section ComparisonClaims.
Context {Host : Type} `{!HostAPI Host}.
Variable tabId : Z.
Implicit Types (w : World Host) (doc : Document).

Lemma rankFrom_last (items : list HighlightDefinition) index c i :
  rankFrom items index c = Some i →
  ∀ j d, (i - index < j)%nat → items !! j = Some d → def_className d ≠ c.
Proof.
  revert index. induction items as [|d0 items IH]; intros index; [done|].
  cbn [rankFrom]. destruct (rankFrom items (S index) c) as [i'|] eqn:Hi'.
  - intros [= ->] j d Hj Hd.
    destruct (rankFrom_Some items (S index) c i Hi') as [Hle _].
    destruct j as [|j]; [lia|]. cbn in Hd.
    eapply (IH (S index) Hi' j); [lia|done].
  - destruct (decide (def_className d0 = c)); [|done].
    intros [= <-] j d Hj Hd. destruct j as [|j]; [lia|]. cbn in Hd.
    intros Hc. apply (rankFrom_None items (S index) c Hi').
    apply list_elem_of_fmap. exists d. split; [done|].
    by eapply list_elem_of_lookup_2.
Qed.

Lemma fetches_one : fetches [EvStorageGetAll] = 1%nat.
Proof. reflexivity. Qed.

Lemma insert_fresh_cell (s : list Cell) (c c' : Cell) :
  <[length s := c']> (s ++ [c]) = s ++ [c'].
Proof. rewrite insert_app_r_alt by lia. by rewrite Nat.sub_diag. Qed.

Lemma mapAt_fresh (s : list Cell) (m : gmap string nat) :
  mapAt (s ++ [CMap m]) (length s) = m.
Proof. unfold mapAt. rewrite lookup_app_r by lia. by rewrite Nat.sub_diag. Qed.

(** C5, amended. When the fetch made by the first invocation resolves
    with a non-empty list of definitions, invoking the function returned
    by [getComparisonFunction("style")] any number of times, one
    invocation after the other, fetches the list exactly once: the map
    of ranks is filled by the first invocation and every invocation,
    then and in any later world where the map is as it was filled,
    resolves to the rank of the entry's class name, which is the index
    of its (last) definition in the list, or to [undefined] when the
    class name has no definition. *)
Theorem style_comparison_memoized (items : list HighlightDefinition) (h' : Host) w0
  (doc : Document) (docs : list Document) :
  items ≠ [] →
  storage_getAll (host w0) = (Resolved items, h') →
  let cell := length (store w0) in
  let created := mkWorld (host w0) (trace w0) (store w0 ++ [CMap ∅]) in
  let filled :=
    mkWorld h' (trace w0 ++ [EvStorageGetAll]) (store w0 ++ [CMap (setRanks items 0 ∅)]) in
  getComparisonFunction tabId "style" w0 = (Resolved (styleComparison cell), created)
  ∧ serial (map (styleComparison cell) (doc :: docs)) created
    = (Resolved (map (λ d, rankValue items (className d)) (doc :: docs)), filled)
  ∧ fetches (trace filled) = S (fetches (trace w0))
  ∧ (∀ w d, mapAt (store w) cell = setRanks items 0 ∅ →
            styleComparison cell d w = (Resolved (rankValue items (className d)), w))
  ∧ (∀ c i, rankFrom items 0 c = Some i →
            def_className <$> items !! i = Some c
            ∧ ∀ j d, (i < j)%nat → items !! j = Some d → def_className d ≠ c)
  ∧ (∀ c, rankFrom items 0 c = None → c ∉ def_className <$> items).
Proof.
  intros Hitems Hget cell created filled. subst cell.
  assert (Hcached : ∀ w d, mapAt (store w) (length (store w0)) = setRanks items 0 ∅ →
            styleComparison (length (store w0)) d w
            = (Resolved (rankValue items (className d)), w)).
  { intros w d Hm. rewrite styleComparison_cached.
    - by rewrite Hm, mapGet_setRanks.
    - rewrite Hm. by apply setRanks_nonempty. }
  split; [done|]. split; [|split; [|split; [done|split]]].
  - cbn [map serial]. unfold andThen.
    rewrite (styleComparison_fetch (length (store w0)) doc created items h').
    + subst created. cbn [host trace store].
      rewrite insert_fresh_cell. fold filled.
      rewrite styleComparison_cached_run.
      * subst filled. cbn [store]. rewrite mapAt_fresh. unfold resolve. do 3 f_equal.
        apply map_ext. intros d. apply mapGet_setRanks.
      * subst filled. cbn [store]. rewrite mapAt_fresh. by apply setRanks_nonempty.
    + subst created. cbn [store]. rewrite length_app. cbn. lia.
    + subst created. cbn [store]. by rewrite mapAt_fresh.
    + done.
  - subst filled. cbn [trace].
    destruct (projections_app (trace w0) [EvStorageGetAll]) as (_ & _ & -> & _).
    rewrite fetches_one. lia.
  - intros c i Hi. destruct (rankFrom_Some items 0 c i Hi) as [_ Hl].
    rewrite Nat.sub_0_r in Hl. split; [done|].
    intros j d Hj. eapply rankFrom_last; [done|lia].
  - intros c. apply rankFrom_None.
Qed.

(** C9. When the fetched definition list is empty the map stays empty,
    so its emptiness test succeeds at every invocation and every
    invocation of the function returned for ["style"] fetches the
    definitions again: [n] invocations, [n] fetches. *)
Theorem style_comparison_empty_list_refetches (docs : list Document) w0 :
  let cell := length (store w0) in
  let created := mkWorld (host w0) (trace w0) (store w0 ++ [CMap ∅]) in
  getComparisonFunction tabId "style" w0 = (Resolved (styleComparison cell), created)
  ∧ (fetchesAnswerEmpty cell docs created = true →
     ∃ w2, serial (map (styleComparison cell) docs) created
           = (Resolved (map (λ _, JUndefined) docs), w2)
       ∧ fetches (trace w2) = (fetches (trace w0) + length docs)%nat
       ∧ size (mapAt (store w2) cell) = 0%nat).
Proof.
  intros cell created. split; [done|].
  assert (Hcell : (cell < length (store created))%nat).
  { subst created cell. cbn [store]. rewrite length_app. cbn. lia. }
  assert (Hsize : size (mapAt (store created) cell) = 0%nat).
  { subst created cell. cbn [store]. by rewrite mapAt_fresh. }
  change (trace w0) with (trace created).
  clearbody created cell. revert created Hcell Hsize.
  induction docs as [|d docs IH]; intros w Hcell Hsize Hempty.
  - exists w. cbn. split; [done|]. split; [lia|done].
  - cbn [fetchesAnswerEmpty] in Hempty.
    destruct (storage_getAll (host w)) as [[[|i items]|e] h'] eqn:Hget; try done.
    rewrite (styleComparison_fetch cell d w [] h' Hcell Hsize Hget) in Hempty.
    cbn [snd setRanks] in Hempty.
    set (w1 := mkWorld _ _ _) in Hempty.
    destruct (IH w1) as (w2 & Hrun & Hfetch & Hsz).
    + subst w1. cbn [store]. by rewrite length_insert.
    + subst w1. cbn [store]. unfold mapAt. by rewrite list_lookup_insert_eq.
    + done.
    + exists w2. cbn [map serial]. unfold andThen.
      rewrite (styleComparison_fetch cell d w [] h' Hcell Hsize Hget).
      cbn [setRanks]. fold w1. rewrite Hrun. split.
      { unfold resolve. do 3 f_equal. unfold rankValue. by destruct (className d). }
      split; [|done]. rewrite Hfetch. subst w1. cbn [trace length].
      destruct (projections_app (trace w) [EvStorageGetAll]) as (_ & _ & -> & _).
      rewrite fetches_one. lia.
Qed.

(** C6. The function returned for ["location"] asks whether the
    highlight of the entry is in the DOM. When the answer is truthy it
    asks for the bounding rectangle and resolves to the rectangle's
    [top]; when the answer is falsy the promise rejects. *)
Theorem location_comparison doc w :
  getComparisonFunction tabId "location" w = (Resolved (locationComparison tabId), w)
  ∧ (∀ present w1 (rect : JsObject) top w2,
       isHighlightInDOM tabId (JStr (_id doc)) w = (Resolved present, w1) →
       truthy present = true →
       getHighlightBoundingClientRect tabId (JStr (_id doc)) w1 = (Resolved (JObj rect), w2) →
       rect !! "top" = Some top →
       locationComparison tabId doc w = (Resolved top, w2))
  ∧ (∀ present w1,
       isHighlightInDOM tabId (JStr (_id doc)) w = (Resolved present, w1) →
       truthy present = false →
       locationComparison tabId doc w = (Rejected (Error ""), w1)).
Proof.
  split; [done|]. split.
  - intros present w1 rect top w2 Hin Hp Hrect Htop.
    unfold locationComparison, andThen. rewrite Hin, Hp, Hrect.
    unfold settle, js_top. by rewrite Htop.
  - intros present w1 Hin Hp.
    unfold locationComparison, andThen. by rewrite Hin, Hp.
Qed.

End ComparisonClaims.

Section Overview.
Context {Host : Type} `{!HostAPI Host}.
Variable tabId : Z.
Implicit Types (w : World Host) (doc : Document).

Lemma append_cons (x : Ascii.ascii) (a b : string) :
  String x a +:+ b = String x (a +:+ b).
Proof. reflexivity. Qed.

Lemma append_assoc (a b c : string) : (a +:+ b) +:+ c = a +:+ b +:+ c.
Proof. induction a as [|x a IH]; [done|]. by rewrite !append_cons, IH. Qed.

Lemma append_empty_r (a : string) : a +:+ "" = a.
Proof. induction a as [|x a IH]; [done|]. by rewrite append_cons, IH. Qed.

(** The loop over the documents appends to the text what the
    specification describes, and remembers the class name of the last
    entry. *)
Lemma overviewItem_entries (titles : gmap string string) (docs : list Document)
  (markdown : string) (previous : option string) :
  (fold_left (overviewItem titles) docs (markdown, previous)).1
  = markdown +:+ overviewEntries titles previous docs.
Proof.
  revert markdown previous. induction docs as [|doc docs IH]; intros markdown previous.
  - cbn. by rewrite append_empty_r.
  - cbn [fold_left overviewEntries]. unfold overviewItem at 2.
    destruct (decide (className doc ≠ previous)) as [Hne|Heq].
    + rewrite IH. by rewrite !append_assoc.
    + apply dec_stable in Heq. rewrite IH, <- Heq. by rewrite !append_assoc.
Qed.

Lemma overviewText_markdown_no_footer (tab : Tab) (titles : gmap string string)
  (docs : list Document) w :
  overviewText OVERVIEW_FORMAT.MARKDOWN_NO_FOOTER tab titles docs w
  = (Resolved (overviewHeading tab +:+ overviewEntries titles None docs), w).
Proof.
  unfold overviewText. rewrite decide_True by (by right).
  pose proof (overviewItem_entries titles docs (overviewHeading tab) None) as Hfold.
  unfold overviewHeading at 1 in Hfold.
  destruct (fold_left _ _ _) as [markdown current]. cbn [fst] in Hfold. subst markdown.
  by rewrite decide_False by (intros Hne; by apply Hne).
Qed.

Lemma overviewText_markdown (tab : Tab) (titles : gmap string string)
  (docs : list Document) w :
  overviewText OVERVIEW_FORMAT.MARKDOWN tab titles docs w
  = (Resolved ((overviewHeading tab +:+ overviewEntries titles None docs) +:+ overviewFooter),
     w).
Proof.
  unfold overviewText. rewrite decide_True by (by left).
  pose proof (overviewItem_entries titles docs (overviewHeading tab) None) as Hfold.
  unfold overviewHeading at 1 in Hfold.
  destruct (fold_left _ _ _) as [markdown current]. cbn [fst] in Hfold. subst markdown.
  by rewrite decide_True by done.
Qed.

(** C7. In markdown mode the overview is the top-level heading linking
    the tab's title to its URL, followed, for the entries in their final
    order, by a [##] subheading with the looked-up title exactly when the
    entry's class name differs from the previous entry's, and by the
    entry's text as a list item; in the mode with footer the footer
    follows. Two consecutive entries of one class name share one
    subheading and a blank line separates their items; two entries of
    different class names get a subheading each. *)
Theorem overview_markdown_rendering
  (comparator : option (Document -> Promise Host JsValue)) (invert : bool) w
  (tab : Tab) (titles : gmap string string) (docs : list Document) w' :
  overviewDocuments tabId comparator invert w = (Resolved (tab, titles, docs), w') →
  getFormattedOverviewText tabId OVERVIEW_FORMAT.MARKDOWN_NO_FOOTER comparator invert w
    = (Resolved (overviewHeading tab +:+ overviewEntries titles None docs), w')
  ∧ getFormattedOverviewText tabId OVERVIEW_FORMAT.MARKDOWN comparator invert w
    = (Resolved ((overviewHeading tab +:+ overviewEntries titles None docs)
                 +:+ overviewFooter), w')
  ∧ overviewHeading tab = "# [" +:+ tab_title tab +:+ "](" +:+ tab_url tab +:+ ")"
  ∧ (∀ a b c, className a = Some c → className b = Some c →
       overviewEntries titles None [a; b]
       = nl +:+ nl +:+ "## " +:+ template (titles !! c)
         +:+ nl +:+ "* " +:+ template (text a)
         +:+ nl
         +:+ nl +:+ "* " +:+ template (text b))
  ∧ (∀ a b ca cb, className a = Some ca → className b = Some cb → ca ≠ cb →
       overviewEntries titles None [a; b]
       = nl +:+ nl +:+ "## " +:+ template (titles !! ca)
         +:+ nl +:+ "* " +:+ template (text a)
         +:+ nl +:+ nl +:+ "## " +:+ template (titles !! cb)
         +:+ nl +:+ "* " +:+ template (text b)).
Proof.
  intros Hdocs. unfold getFormattedOverviewText, andThen. rewrite Hdocs.
  split; [apply overviewText_markdown_no_footer|].
  split; [apply overviewText_markdown|].
  split; [done|]. split.
  - intros a b c Ha Hb. cbn [overviewEntries]. rewrite Ha, Hb.
    rewrite decide_True by done. rewrite decide_False by (intros Hne; by apply Hne).
    cbn [titlesGet mbind option_bind]. by rewrite !append_assoc, append_empty_r.
  - intros a b ca cb Ha Hb Hne. cbn [overviewEntries]. rewrite Ha, Hb.
    rewrite !decide_True by congruence.
    cbn [titlesGet mbind option_bind]. by rewrite !append_assoc, append_empty_r.
Qed.

(** C8. With [invert] set, the entries reach the renderer in exactly
    the reverse of the order they have without it, everything else being
    equal: same tab, same titles, same world, same failure if any. *)
Theorem overview_invert_reverses
  (comparator : option (Document -> Promise Host JsValue)) (format : string) w :
  overviewDocuments tabId comparator true w
    = match overviewDocuments tabId comparator false w with
      | (Resolved (tab, titles, docs), w') => (Resolved (tab, titles, rev docs), w')
      | (Rejected e, w') => (Rejected e, w')
      end
  ∧ getFormattedOverviewText tabId format comparator false w
    = match overviewDocuments tabId comparator false w with
      | (Resolved (tab, titles, docs), w') => overviewText format tab titles docs w'
      | (Rejected e, w') => (Rejected e, w')
      end
  ∧ getFormattedOverviewText tabId format comparator true w
    = match overviewDocuments tabId comparator false w with
      | (Resolved (tab, titles, docs), w') => overviewText format tab titles (rev docs) w'
      | (Rejected e, w') => (Rejected e, w')
      end.
Proof.
  assert (Hrev : overviewDocuments tabId comparator true w
    = match overviewDocuments tabId comparator false w with
      | (Resolved (tab, titles, docs), w') => (Resolved (tab, titles, rev docs), w')
      | (Rejected e, w') => (Rejected e, w')
      end).
  { unfold overviewDocuments, andThen, resolve, reject, settle.
    destruct (get tabId w) as [[[tab|]|e] w1]; [| |done].
    - destruct (getAllDefinitions w1) as [[definitions|e] w2]; [|done].
      destruct (hostCall _ _ w2) as [[[docs|e]|e] w3]; [|done|done].
      destruct comparator as [c|]; [|done].
      by destruct (DB_sortDocuments docs c w3) as [[sorted|e] w4].
    - by destruct (getAllDefinitions w1) as [[definitions|e] w2]. }
  split; [done|].
  unfold getFormattedOverviewText, andThen. rewrite Hrev.
  split.
  - by destruct (overviewDocuments tabId comparator false w) as [[[[tab titles] docs]|e] w'].
  - by destruct (overviewDocuments tabId comparator false w) as [[[[tab titles] docs]|e] w'].
Qed.

End Overview.

(** ** Runs on the scripted host *)

Section Overlap.
Context {Host : Type} `{!HostAPI Host}.

(** An invocation that runs alone is its start followed by its finish. *)
Lemma styleComparison_start_finish cell (doc : Document) (w : World Host) :
  styleComparison cell doc w
  = (let* p := styleComparisonStart cell doc in styleComparisonFinish cell doc p) w.
Proof.
  unfold styleComparison, styleComparisonStart, styleComparisonFinish, andThen, readMap.
  cbn [fst snd]. destruct (size (mapAt (store w) cell) =? 0)%nat; [|done].
  unfold getAllDefinitions, andThen, resolve.
  destruct (hostCall EvStorageGetAll storage_getAll w) as [[items|e] w1]; [|done].
  by destruct (settle items w1) as [[ds|e] w2].
Qed.

End Overlap.

(** Two invocations started before the fetch of the first has answered
    both find the map empty and both fetch, non-empty list or not. *)
Example style_comparison_overlapping_invocations :
  let w1 := mkWorld (Scripted.answering []) [] [CMap ∅] in
  let '(p1, w2) := styleComparisonStart 0 Scripted.docA w1 in
  let '(p2, w3) := styleComparisonStart 0 Scripted.docC w2 in
  match p1, p2 with
  | Resolved p1, Resolved p2 =>
      let '(k1, w4) := styleComparisonFinish 0 Scripted.docA p1 w3 in
      let '(k2, w5) := styleComparisonFinish 0 Scripted.docC p2 w4 in
      k1 = Resolved (JNum 0) ∧ k2 = Resolved (JNum 1) ∧ fetches (trace w5) = 2%nat
  | _, _ => False
  end.
Proof. vm_compute. done. Qed.

(** The first delivery is answered: one delivery, no injection. *)
Example sendMessage_answered :
  let r := sendMessage 7 {[ "id" := JStr MESSAGE_ID.GET_SELECTION_RANGE ]}
             (Scripted.world (Scripted.answering [JNull])) in
  r.1 = Resolved JNull
  ∧ length (sends (trace r.2)) = 1%nat ∧ length (injections (trace r.2)) = 0%nat.
Proof. vm_compute. done. Qed.

(** No content script yet: one failed delivery, the seven scripts, one
    answered delivery. *)
Example sendMessage_after_injection :
  let r := sendMessage 7 {[ "id" := JStr MESSAGE_ID.GET_SELECTION_RANGE ]}
             (Scripted.world (Scripted.injecting [JNull])) in
  r.1 = Resolved JNull
  ∧ length (sends (trace r.2)) = 2%nat ∧ length (injections (trace r.2)) = 7%nat.
Proof. vm_compute. done. Qed.

(** The script never answers: the second failure is the outcome. *)
Example sendMessage_retry_fails :
  let r := sendMessage 7 {[ "id" := JStr MESSAGE_ID.GET_SELECTION_RANGE ]}
             (Scripted.world (Scripted.injecting [JUndefined])) in
  r.1 = Rejected (Error "Undefined response")
  ∧ length (sends (trace r.2)) = 2%nat ∧ length (injections (trace r.2)) = 7%nat.
Proof. vm_compute. done. Qed.

(** Injection is refused: its failure is the outcome, without retry. *)
Example sendMessage_injection_fails :
  let r := sendMessage 7 {[ "id" := JStr MESSAGE_ID.GET_SELECTION_RANGE ]}
             (Scripted.world Scripted.restricted) in
  r.1 = Rejected (Error "Cannot access a chrome:// URL")
  ∧ length (sends (trace r.2)) = 1%nat ∧ length (injections (trace r.2)) = 1%nat.
Proof. vm_compute. done. Qed.

(** Create then delete, both answered: the net count is zero and the
    requests go out in that order. *)
Example playback_create_delete :
  let r := playbackDocuments 7 [Scripted.docA; Scripted.docDeleteA] None
             (Scripted.world (Scripted.answering [JBool true; JBool true])) in
  r.1 = Resolved 0
  ∧ (λ m : JsObject, m !! "id") <$> sends (trace r.2)
    = [Some (JStr "create_highlight"); Some (JStr "delete_highlight")].
Proof. vm_compute. done. Qed.

(** C2, as claimed, fails: the operation of an entry with verb
    ["update"] does not resolve to [true], and the failure callback is
    invoked for it. *)
Lemma playback_unknown_verb_counterexample :
  let w := Scripted.world (Scripted.answering []) in
  let doc := Scripted.docUpdate in
  verb doc ≠ VERB.CREATE ∧ verb doc ≠ VERB.DELETE
  ∧ (playbackOperation 7 0 doc w).1 = Resolved (JBool false)
  ∧ playbackErrors (trace (playbackDocuments 7 [doc] (Some Scripted.report) w).2) = [doc]
  ∧ ¬ ((playbackOperation 7 0 doc w).1 = Resolved (JBool true)
       ∧ playbackErrors (trace (playbackDocuments 7 [doc] (Some Scripted.report) w).2) = []).
Proof.
  cbv zeta. split; [done|]. split; [done|]. split; [by vm_compute|].
  split; [by vm_compute|]. intros [Hop _]. vm_compute in Hop. discriminate Hop.
Qed.

(** The amended C2 on the scripted host: an [update] entry, reported to
    the callback. *)
Lemma playback_unknown_verb_witness :
  verb Scripted.docUpdate ≠ VERB.CREATE ∧ verb Scripted.docUpdate ≠ VERB.DELETE
  ∧ playbackStep 7 0 (Some Scripted.report) Scripted.docUpdate
      (Scripted.world (Scripted.answering []))
    = (Resolved JUndefined,
       mkWorld (Scripted.answering [])
         [EvConsoleError "unknown verb"; EvOnPlaybackError Scripted.docUpdate] []).
Proof.
  assert (Hc : verb Scripted.docUpdate ≠ VERB.CREATE) by done.
  assert (Hd : verb Scripted.docUpdate ≠ VERB.DELETE) by done.
  split; [exact Hc|]. split; [exact Hd|].
  exact (proj2 (playback_unknown_verb 7 0 (Some Scripted.report) Scripted.docUpdate
                  (Scripted.world (Scripted.answering [])) Hc Hd)).
Defined.

(** C5, as claimed, fails: with no definitions stored, two invocations
    of the style comparison fetch the definitions twice. *)
Lemma style_comparison_counterexample :
  let w0 := Scripted.world Scripted.unstyled in
  let w1 := mkWorld Scripted.unstyled [] [CMap ∅] in
  getComparisonFunction 7 "style" w0 = (Resolved (styleComparison 0), w1)
  ∧ (serial [styleComparison 0 Scripted.docA; styleComparison 0 Scripted.docA] w1).1
    = Resolved [JUndefined; JUndefined]
  ∧ fetches (trace (serial [styleComparison 0 Scripted.docA;
                            styleComparison 0 Scripted.docA] w1).2) = 2%nat.
Proof. cbv zeta. split; [done|]. split; by vm_compute. Qed.

(** C10 at the empty string. *)
Lemma select_falsy_omits_field_witness :
  let w := Scripted.world (Scripted.answering [JNull]) in
  truthy (JStr "") = false
  ∧ selectHighlight 7 (JStr "") w
    = sendMessage 7 {[ "id" := JStr MESSAGE_ID.SELECT_HIGHLIGHT ]} w
  ∧ selectRange 7 (JStr "") w
    = sendMessage 7 {[ "id" := JStr MESSAGE_ID.SELECT_RANGE ]} w.
Proof.
  cbv zeta. split; [reflexivity|].
  pose proof (select_falsy_omits_field 7 (JStr "")
                (Scripted.world (Scripted.answering [JNull])) eq_refl)
    as (Hh & _ & Hr & _).
  exact (conj Hh Hr).
Defined.



(** The amended C4 on the scripted host: a create answered [true] and a
    delete answered [false], reported to a callback that returns. *)
Lemma playback_net_count_witness :
  let w := Scripted.world (Scripted.answering [JBool true; JBool false]) in
  let docs := [Scripted.docA; Scripted.docDeleteA] in
  operationsSettle 7 (length (store w)) (Some Scripted.report) docs (newCell (CNum 0) w).2
    = true
  ∧ callbackReturns 7 (length (store w)) (Some Scripted.report) docs (newCell (CNum 0) w).2
    = true
  ∧ ∃ w', playbackDocuments 7 docs (Some Scripted.report) w
          = (Resolved (Z.of_nat (countVerb VERB.CREATE docs)
                       - Z.of_nat (countVerb VERB.DELETE docs)),
             w').
Proof.
  cbv zeta.
  set (w := Scripted.world (Scripted.answering [JBool true; JBool false])).
  assert (Hset :
    operationsSettle 7 (length (store w)) (Some Scripted.report)
      [Scripted.docA; Scripted.docDeleteA] (newCell (CNum 0) w).2 = true)
    by (vm_compute; reflexivity).
  assert (Hret :
    callbackReturns 7 (length (store w)) (Some Scripted.report)
      [Scripted.docA; Scripted.docDeleteA] (newCell (CNum 0) w).2 = true)
    by (vm_compute; reflexivity).
  split; [exact Hset|]. split; [exact Hret|].
  exact (proj1 (playback_net_count 7 (Some Scripted.report)
                  [Scripted.docA; Scripted.docDeleteA] w) Hset Hret).
Defined.

(** C4, as claimed, fails: the only operation settles, answered
    [false], and the callback throws; the playback rejects instead of
    resolving to the net count 1. *)
Lemma playback_net_count_counterexample :
  let w := Scripted.world (Scripted.answering [JBool false]) in
  let r := playbackDocuments 7 [Scripted.docA] (Some Scripted.refuse) w in
  operationsSettle 7 (length (store w)) (Some Scripted.refuse) [Scripted.docA]
    (newCell (CNum 0) w).2 = true
  ∧ Z.of_nat (countVerb VERB.CREATE [Scripted.docA])
    - Z.of_nat (countVerb VERB.DELETE [Scripted.docA]) = 1
  ∧ r.1 = Rejected (Error "report failed")
  ∧ r.1 ≠ Resolved 1.
Proof.
  cbv zeta. split; [by vm_compute|]. split; [by vm_compute|].
  split; [by vm_compute|]. intros Hr. vm_compute in Hr. discriminate Hr.
Qed.

(** The amended C5 on the scripted host: three invocations, two
    definitions, one fetch. *)
Lemma style_comparison_memoized_witness :
  let w0 := Scripted.world (Scripted.answering []) in
  let created := mkWorld (host w0) (trace w0) (store w0 ++ [CMap ∅]) in
  Scripted.styles ≠ []
  ∧ storage_getAll (host w0) = (Resolved Scripted.styles, Scripted.answering [])
  ∧ (serial (map (styleComparison 0) [Scripted.docA; Scripted.docC; Scripted.docB])
       created).1
    = Resolved [JNum 0; JNum 1; JNum 0]
  ∧ fetches (trace (serial (map (styleComparison 0)
                              [Scripted.docA; Scripted.docC; Scripted.docB]) created).2)
    = 1%nat.
Proof.
  cbv zeta.
  assert (Hne : Scripted.styles ≠ []) by done.
  split; [exact Hne|]. split; [reflexivity|].
  pose proof (style_comparison_memoized 7 Scripted.styles (Scripted.answering [])
                (Scripted.world (Scripted.answering [])) Scripted.docA
                [Scripted.docC; Scripted.docB] Hne eq_refl) as (_ & Hrun & Hfetch & _).
  cbv zeta in Hrun, Hfetch.
  change (length (store (Scripted.world (Scripted.answering [])))) with 0%nat in Hrun.
  rewrite Hrun. split; [reflexivity|exact Hfetch].
Defined.

(** C9 on the scripted host: no definitions, two invocations, two
    fetches. *)
Lemma style_comparison_empty_list_refetches_witness :
  let w0 := Scripted.world Scripted.unstyled in
  let created := mkWorld (host w0) (trace w0) (store w0 ++ [CMap ∅]) in
  fetchesAnswerEmpty 0 [Scripted.docA; Scripted.docB] created = true
  ∧ ∃ w2, serial (map (styleComparison 0) [Scripted.docA; Scripted.docB]) created
          = (Resolved [JUndefined; JUndefined], w2)
      ∧ fetches (trace w2) = 2%nat
      ∧ size (mapAt (store w2) 0) = 0%nat.
Proof.
  cbv zeta.
  assert (Hempty :
    fetchesAnswerEmpty (length (store (Scripted.world Scripted.unstyled)))
      [Scripted.docA; Scripted.docB]
      (mkWorld (host (Scripted.world Scripted.unstyled))
         (trace (Scripted.world Scripted.unstyled))
         (store (Scripted.world Scripted.unstyled) ++ [CMap ∅])) = true)
    by (vm_compute; reflexivity).
  split; [exact Hempty|].
  exact (proj2 (style_comparison_empty_list_refetches 7 [Scripted.docA; Scripted.docB]
                  (Scripted.world Scripted.unstyled)) Hempty).
Defined.

(** C6 on the scripted host: the highlight is in the DOM, 120 from the
    top. *)
Lemma location_comparison_witness :
  let rect : JsObject := {[ "top" := JNum 120; "left" := JNum 8 ]} in
  let w := Scripted.world (Scripted.answering [JBool true; JObj rect]) in
  let w1 := (isHighlightInDOM 7 (JStr "a") w).2 in
  let w2 := (getHighlightBoundingClientRect 7 (JStr "a") w1).2 in
  isHighlightInDOM 7 (JStr (_id Scripted.docA)) w = (Resolved (JBool true), w1)
  ∧ truthy (JBool true) = true
  ∧ getHighlightBoundingClientRect 7 (JStr (_id Scripted.docA)) w1 = (Resolved (JObj rect), w2)
  ∧ rect !! "top" = Some (JNum 120)
  ∧ locationComparison 7 Scripted.docA w = (Resolved (JNum 120), w2).
Proof.
  cbv zeta.
  set (rect := ({[ "top" := JNum 120; "left" := JNum 8 ]} : JsObject)).
  set (w := Scripted.world (Scripted.answering [JBool true; JObj rect])).
  assert (Hin : isHighlightInDOM 7 (JStr (_id Scripted.docA)) w
                = (Resolved (JBool true), (isHighlightInDOM 7 (JStr "a") w).2))
    by (vm_compute; reflexivity).
  assert (Hrect : getHighlightBoundingClientRect 7 (JStr (_id Scripted.docA))
                    (isHighlightInDOM 7 (JStr "a") w).2
                  = (Resolved (JObj rect),
                     (getHighlightBoundingClientRect 7 (JStr "a")
                        (isHighlightInDOM 7 (JStr "a") w).2).2))
    by (vm_compute; reflexivity).
  assert (Htop : rect !! "top" = Some (JNum 120)) by (vm_compute; reflexivity).
  split; [exact Hin|]. split; [reflexivity|]. split; [exact Hrect|]. split; [exact Htop|].
  exact (proj1 (proj2 (location_comparison 7 Scripted.docA w))
           _ _ _ _ _ Hin eq_refl Hrect Htop).
Defined.

(** C7 on the scripted host: A and B share the subheading of their
    class, C gets its own. *)
Lemma overview_markdown_rendering_witness :
  let w := Scripted.world (Scripted.answering []) in
  let titles : gmap string string := {[ "red" := "Red"; "blue" := "Blue" ]} in
  let docs := [Scripted.docA; Scripted.docB; Scripted.docC] in
  let w' := (overviewDocuments 7 None false w).2 in
  overviewDocuments 7 None false w = (Resolved (Scripted.page, titles, docs), w')
  ∧ getFormattedOverviewText 7 OVERVIEW_FORMAT.MARKDOWN_NO_FOOTER None false w
    = (Resolved ("# [Example](https://example.org/)" +:+ nl +:+ nl +:+
                 "## Red" +:+ nl +:+
                 "* A" +:+ nl +:+ nl +:+
                 "* B" +:+ nl +:+ nl +:+
                 "## Blue" +:+ nl +:+
                 "* C"), w').
Proof.
  cbv zeta.
  assert (Hdocs :
    overviewDocuments 7 None false (Scripted.world (Scripted.answering []))
    = (Resolved (Scripted.page, ({[ "red" := "Red"; "blue" := "Blue" ]} : gmap string string),
                 [Scripted.docA; Scripted.docB; Scripted.docC]),
       (overviewDocuments 7 None false (Scripted.world (Scripted.answering []))).2))
    by (vm_compute; reflexivity).
  split; [exact Hdocs|].
  exact (proj1 (overview_markdown_rendering 7 None false _ _ _ _ _ Hdocs)).
Defined.

(** Sorting by time puts B (5) before C (7) before A (10); inverted,
    the order is A, C, B. *)
Example overview_sorted_by_time :
  let w := Scripted.world (Scripted.answering []) in
  let byTime : Document -> Promise Scripted.Host JsValue := λ doc, resolve (JNum (date doc)) in
  (getFormattedOverviewText 7 OVERVIEW_FORMAT.MARKDOWN_NO_FOOTER (Some byTime) false w).1
    = Resolved ("# [Example](https://example.org/)" +:+ nl +:+ nl +:+
                "## Red" +:+ nl +:+ "* B" +:+ nl +:+ nl +:+
                "## Blue" +:+ nl +:+ "* C" +:+ nl +:+ nl +:+
                "## Red" +:+ nl +:+ "* A")
  ∧ (getFormattedOverviewText 7 OVERVIEW_FORMAT.MARKDOWN_NO_FOOTER (Some byTime) true w).1
    = Resolved ("# [Example](https://example.org/)" +:+ nl +:+ nl +:+
                "## Red" +:+ nl +:+ "* A" +:+ nl +:+ nl +:+
                "## Blue" +:+ nl +:+ "* C" +:+ nl +:+ nl +:+
                "## Red" +:+ nl +:+ "* B").
Proof. vm_compute. done. Qed.


(** * Further properties *)

Section Injection.
Context {Host : Type} `{!HostAPI Host}.
Variable tabId : Z.
Implicit Types (w : World Host).

Lemma executeScriptFile_outcome file details w :
  ∃ h, (executeScriptFile tabId file details w).2
       = mkWorld h (trace w ++ injectEvents tabId details [file]) (store w)
    ∧ ∀ e, (executeScriptFile tabId file details w).1 = Rejected e → ∃ m, e = Error m.
Proof.
  unfold executeScriptFile, andThen, hostCall.
  destruct (chrome_tabs_executeScript _ _ (host w)) as [cb h].
  exists h. destruct (lastError cb) as [m|]; cbn.
  - split; [done|]. intros e [= <-]. by exists m.
  - split; [done|]. intros e Hd. discriminate Hd.
Qed.

Lemma serial_executeScriptFile_outcome files details w :
  match serial (map (λ f, executeScriptFile tabId f details) files) w with
  | (Resolved rs, w') =>
      length rs = length files
      ∧ ∃ h, w' = mkWorld h (trace w ++ injectEvents tabId details files) (store w)
  | (Rejected e, w') =>
      ∃ k h m, (0 < k ≤ length files)%nat ∧ e = Error m
        ∧ w' = mkWorld h (trace w ++ injectEvents tabId details (take k files)) (store w)
  end.
Proof.
  revert w. induction files as [|f files IH]; intros w.
  - cbn. split; [done|]. exists (host w). rewrite app_nil_r. by destruct w.
  - cbn [map serial]. unfold andThen.
    destruct (executeScriptFile_outcome f details w) as (h1 & Hw1 & He1).
    destruct (executeScriptFile tabId f details w) as [[r|e] w1]; cbn [fst snd] in Hw1, He1.
    + subst w1. specialize (IH (mkWorld h1 (trace w ++ injectEvents tabId details [f]) (store w))).
      destruct (serial _ _) as [[rs|e] w2]; cbn [trace store] in IH.
      * destruct IH as (Hlen & h & ->). cbn. split; [by rewrite Hlen|].
        exists h. by rewrite <- app_assoc.
      * destruct IH as (k & h & m & Hk & -> & ->).
        exists (S k), h, m. cbn [length take]. split; [lia|]. split; [done|].
        by rewrite <- app_assoc.
    + destruct (He1 e eq_refl) as [m ->]. subst w1.
      exists 1%nat, h1, m. cbn [length take]. split; [lia|]. split; [done|].
      by rewrite take_0.
Qed.

(** The run of injections in terms of the host's answers. *)
Lemma serial_executeScriptFile_answers files details w :
  serial (map (λ f, executeScriptFile tabId f details) files) w
  = (match last (injectAnswers tabId details files (host w)).1 ≫= lastError with
     | Some m => Rejected (Error m)
     | None => Resolved (result <$> (injectAnswers tabId details files (host w)).1)
     end,
     mkWorld (injectAnswers tabId details files (host w)).2
       (trace w
        ++ injectEvents tabId details
             (take (length (injectAnswers tabId details files (host w)).1) files))
       (store w)).
Proof.
  revert w. induction files as [|f files IH]; intros w.
  - cbn. rewrite app_nil_r. by destruct w.
  - cbn [map serial injectAnswers]. unfold andThen at 1.
    unfold executeScriptFile, andThen, hostCall.
    destruct (chrome_tabs_executeScript _ _ (host w)) as [cb h1].
    destruct (lastError cb) as [m|] eqn:Herr.
    + cbn. by rewrite Herr.
    + unfold resolve at 1. rewrite IH. cbn [host trace store].
      destruct (injectAnswers tabId details files h1) as [cbs h2]. cbn [fst snd].
      rewrite last_cons. cbn [length take]. unfold injectEvents. cbn [map].
      rewrite <- app_assoc. cbn [app].
      destruct (last cbs) as [cb'|]; cbn [mbind option_bind].
      * by destruct (lastError cb').
      * by rewrite Herr.
Qed.

(** The answers collected stop at the first that sets [lastError]. *)
Lemma injectAnswers_shape files details (h : Host) :
  (length (injectAnswers tabId details files h).1 ≤ length files)%nat
  ∧ (last (injectAnswers tabId details files h).1 ≫= lastError = None
     → length (injectAnswers tabId details files h).1 = length files)
  ∧ (∀ i cb, (injectAnswers tabId details files h).1 !! i = Some cb
             → (S i < length (injectAnswers tabId details files h).1)%nat
             → lastError cb = None).
Proof.
  revert h. induction files as [|f files IH]; intros h; [done|].
  cbn [injectAnswers].
  destruct (chrome_tabs_executeScript _ _ h) as [cb h1].
  destruct (lastError cb) as [m|] eqn:Herr.
  - cbn. rewrite Herr. split; [lia|]. split; [done|]. intros i cb' _ Hi. lia.
  - destruct (IH h1) as (Hlen & Hall & Hbefore).
    destruct (injectAnswers tabId details files h1) as [cbs h2]. cbn [fst snd] in *.
    split; [cbn; lia|]. split.
    + rewrite last_cons. intros Hlast. cbn [length]. f_equal. apply Hall.
      by destruct (last cbs).
    + intros [|i] cb'; cbn [length].
      * by intros [= <-].
      * intros Hi Hlt. apply (Hbefore i); [done|lia].
Qed.

(** X1. [executeScript] on an array asks the host to inject the files
    one after the other in the order of the array, up to and including
    the first file for which the host sets [lastError]. With no such
    file every file is injected once and the promise resolves to the
    array of the host's per-file results, in order; otherwise it rejects
    with an [Error] carrying the host's [lastError] message for that
    file, and no later file is injected. *)
Theorem executeScript_array_in_order (files : list string) (details : JsObject) w :
  let answers := (injectAnswers tabId details files (host w)).1 in
  executeScript tabId (FileArray files) details w
  = (match last answers ≫= lastError with
     | Some m => Rejected (Error m)
     | None => Resolved (JArr (result <$> answers))
     end,
     mkWorld (injectAnswers tabId details files (host w)).2
       (trace w ++ injectEvents tabId details (take (length answers) files))
       (store w))
  ∧ (length answers ≤ length files)%nat
  ∧ (last answers ≫= lastError = None → length answers = length files)
  ∧ (∀ i cb, answers !! i = Some cb → (S i < length answers)%nat → lastError cb = None).
Proof.
  cbv zeta. split; [|apply injectAnswers_shape].
  unfold executeScript, andThen. rewrite serial_executeScriptFile_answers.
  by destruct (last _ ≫= lastError).
Qed.

(** X2. The options handed to [chrome.tabs.executeScript] are the
    caller's [details] with the file added: every property of [details]
    is passed on unchanged, [file] included, so a [file] in [details]
    replaces the file asked for. *)
Theorem executeScript_details_override (file : string) (details : JsObject) w :
  ∃ (arg : JsObject) h,
    (executeScript tabId (File file) details w).2
      = mkWorld h (trace w ++ [EvExecuteScript tabId arg]) (store w)
    ∧ (∀ k v, details !! k = Some v → arg !! k = Some v)
    ∧ (∀ k, k ≠ "file" → arg !! k = details !! k)
    ∧ (details !! "file" = None → arg !! "file" = Some (JStr file)).
Proof.
  destruct (executeScriptFile_outcome file details w) as (h & Hw & _).
  exists (details ∪ {[ "file" := JStr file ]}), h. split; [exact Hw|].
  split; [|split].
  - intros k v Hk. by apply lookup_union_Some_l.
  - intros k Hk. apply lookup_union_l. by rewrite lookup_singleton_ne.
  - intros Hnone. rewrite lookup_union_r by done. by rewrite lookup_singleton_eq.
Qed.

End Injection.

Section MessengerMore.
Context {Host : Type} `{!HostAPI Host}.
Variable tabId : Z.
Implicit Types (w : World Host).

Lemma sendMessageInternal_outcome message w :
  match (sendMessageInternal tabId message w).1 with
  | Resolved r => r ≠ JUndefined
  | Rejected e => ∃ m, e = Error m
  end.
Proof.
  unfold sendMessageInternal, andThen, hostCall.
  destruct (chrome_tabs_sendMessage tabId message (host w)) as [cb h].
  destruct (lastError cb) as [m|]; cbn; [by exists m|].
  destruct (result cb); cbn; try done. by eexists.
Qed.

Lemma executeDefaultScript_outcome details w :
  match executeDefaultScript tabId details w with
  | (Resolved _, w') =>
      ∃ h, w' = mkWorld h (trace w ++ injectEvents tabId details DEFAULT_SCRIPTS) (store w)
  | (Rejected e, w') =>
      ∃ k h m, (0 < k ≤ length DEFAULT_SCRIPTS)%nat ∧ e = Error m
        ∧ w' = mkWorld h (trace w ++ injectEvents tabId details (take k DEFAULT_SCRIPTS))
                 (store w)
  end.
Proof.
  unfold executeDefaultScript, executeScript, andThen.
  pose proof (serial_executeScriptFile_outcome tabId DEFAULT_SCRIPTS details w) as Hrun.
  destruct (serial _ w) as [[rs|e] w1]; [|done].
  destruct Hrun as (_ & h & ->). cbn. by exists h.
Qed.

Lemma sendMessageOpt_inject_unfold message w :
  sendMessageOpt tabId message true w =
  match executeDefaultScript tabId ∅ w with
  | (Resolved _, w1) => sendMessageInternal tabId message w1
  | (Rejected e, w1) => (Rejected e, w1)
  end.
Proof.
  unfold sendMessageOpt. cbn [sendMessageFuel negb]. unfold andThen.
  destruct (executeDefaultScript tabId ∅ w) as [[r|e] w1]; [|done].
  by destruct (sendMessageInternal tabId message w1) as [[r'|e'] w2].
Qed.

(** X3. Called with the option [executeDefaultScript] set, [sendMessage]
    injects the default scripts first and then makes a single delivery
    attempt, whose outcome is its outcome; it never calls itself again.
    If the injection fails, that failure is the outcome and nothing is
    delivered. *)
Theorem sendMessage_injecting_first message w :
  sendMessageOpt tabId message true w =
    match executeDefaultScript tabId ∅ w with
    | (Resolved _, w1) => sendMessageInternal tabId message w1
    | (Rejected e, w1) => (Rejected e, w1)
    end
  ∧ (∀ n, sendMessageFuel tabId (1 + n) message true w
          = Some (sendMessageOpt tabId message true w))
  ∧ ∃ h evs,
      (sendMessageOpt tabId message true w).2 = mkWorld h (trace w ++ evs) (store w)
      ∧ ((∃ k e, (0 < k ≤ length DEFAULT_SCRIPTS)%nat
                ∧ (sendMessageOpt tabId message true w).1 = Rejected e
                ∧ evs = injectEvents tabId ∅ (take k DEFAULT_SCRIPTS))
         ∨ evs = injectEvents tabId ∅ DEFAULT_SCRIPTS ++ [EvSendMessage tabId message]).
Proof.
  split; [apply sendMessageOpt_inject_unfold|]. split.
  - intros n. unfold sendMessageOpt. cbn [sendMessageFuel negb Nat.add]. unfold andThen.
    destruct (executeDefaultScript tabId ∅ w) as [[r|e] w1]; [|done].
    by destruct (sendMessageInternal tabId message w1) as [[r'|e'] w2].
  - rewrite sendMessageOpt_inject_unfold.
    pose proof (executeDefaultScript_outcome ∅ w) as Hinj.
    destruct (executeDefaultScript tabId ∅ w) as [[r|e] w1].
    + destruct Hinj as (h1 & ->).
      set (w1 := mkWorld h1 _ _).
      destruct (sendMessageInternal_world tabId message w1) as [h2 Hw2].
      exists h2, (injectEvents tabId ∅ DEFAULT_SCRIPTS ++ [EvSendMessage tabId message]).
      split; [|by right]. rewrite Hw2. subst w1. cbn [trace store].
      by rewrite <- app_assoc.
    + destruct Hinj as (k & h1 & m & Hk & -> & ->).
      exists h1, (injectEvents tabId ∅ (take k DEFAULT_SCRIPTS)).
      split; [done|]. left. exists k, (Error m). done.
Qed.

Lemma sendMessage_outcome_defined message w :
  match (sendMessage tabId message w).1 with
  | Resolved r => r ≠ JUndefined
  | Rejected e => ∃ m, e = Error m
  end.
Proof.
  rewrite sendMessage_unfold.
  pose proof (sendMessageInternal_outcome message w) as H1.
  destruct (sendMessageInternal tabId message w) as [[r|e] w1]; [done|].
  pose proof (executeDefaultScript_outcome ∅ w1) as H2.
  destruct (executeDefaultScript tabId ∅ w1) as [[r|e2] w2].
  - apply sendMessageInternal_outcome.
  - destruct H2 as (k & h & m & _ & -> & _). by exists m.
Qed.

(** X4. Whatever the host does, a value [sendMessage] resolves to is
    never [undefined] ([null] is a value), and a rejection is always an
    [Error] object carrying a message: the host's [lastError] message of
    the failed delivery or injection, or the text of the missing-response
    error. *)
Theorem sendMessage_never_resolves_undefined message w :
  match (sendMessage tabId message w).1 with
  | Resolved r => r ≠ JUndefined
  | Rejected e => ∃ m, e = Error m
  end
  ∧ (∀ cb h, chrome_tabs_sendMessage tabId message (host w) = (cb, h) →
       lastError cb = None → result cb = JNull →
       sendMessage tabId message w
       = (Resolved JNull, mkWorld h (trace w ++ [EvSendMessage tabId message]) (store w))).
Proof.
  split; [apply sendMessage_outcome_defined|].
  intros cb h Hcb Herr Hres. rewrite sendMessage_unfold.
  unfold sendMessageInternal, andThen, hostCall. by rewrite Hcb, Herr, Hres.
Qed.

(** X5. For a truthy argument [selectHighlight] sends the request with
    [highlightId] set to the argument, and [selectRange] with [xrange]
    set to it; each delivery of the run carries that field. *)
Theorem select_truthy_carries_field (v : JsValue) w :
  truthy v = true →
  selectHighlight tabId v w
    = sendMessage tabId {[ "id" := JStr MESSAGE_ID.SELECT_HIGHLIGHT; "highlightId" := v ]} w
  ∧ selectRange tabId v w
    = sendMessage tabId {[ "id" := JStr MESSAGE_ID.SELECT_RANGE; "xrange" := v ]} w
  ∧ (∃ evs, trace (selectHighlight tabId v w).2 = trace w ++ evs
       ∧ sends evs ≠ []
       ∧ Forall (λ m : JsObject, m !! "highlightId" = Some v) (sends evs))
  ∧ (∃ evs, trace (selectRange tabId v w).2 = trace w ++ evs
       ∧ sends evs ≠ []
       ∧ Forall (λ m : JsObject, m !! "xrange" = Some v) (sends evs)).
Proof.
  intros Hv.
  assert (Hh : selectHighlight tabId v w
    = sendMessage tabId {[ "id" := JStr MESSAGE_ID.SELECT_HIGHLIGHT; "highlightId" := v ]} w).
  { unfold selectHighlight. rewrite Hv. by f_equal. }
  assert (Hr : selectRange tabId v w
    = sendMessage tabId {[ "id" := JStr MESSAGE_ID.SELECT_RANGE; "xrange" := v ]} w).
  { unfold selectRange. rewrite Hv. by f_equal. }
  split; [done|]. split; [done|]. rewrite Hh, Hr. split.
  - match goal with |- context [sendMessage tabId ?m w] =>
      destruct (sendMessage_deliveries tabId m w) as (evs & Ht & Hs & _) end.
    exists evs. split; [done|].
    destruct Hs as [-> | ->]; (split; [done|]); repeat constructor; by simplify_map_eq.
  - match goal with |- context [sendMessage tabId ?m w] =>
      destruct (sendMessage_deliveries tabId m w) as (evs & Ht & Hs & _) end.
    exists evs. split; [done|].
    destruct Hs as [-> | ->]; (split; [done|]); repeat constructor; by simplify_map_eq.
Qed.

End MessengerMore.

Section PlaybackMore.
Context {Host : Type} `{!HostAPI Host}.
Variable tabId : Z.
Implicit Types (w : World Host) (doc : Document) (cb : option (PlaybackCallback Host)).

(** What the trace gains from one send, by kind of event. *)
Lemma sendMessage_new_events message w :
  ∃ evs, trace (sendMessage tabId message w).2 = trace w ++ evs
    ∧ (sends evs = [message] ∨ sends evs = [message; message])
    ∧ (length (injections evs) ≤ length DEFAULT_SCRIPTS)%nat
    ∧ playbackErrors evs = [] ∧ consoleErrors evs = [] ∧ fetches evs = 0%nat.
Proof.
  destruct (sendMessage_deliveries tabId message w) as (evs & Ht & Hs & Hi).
  destruct (sendMessage_events tabId message w) as (evs' & Ht' & Hev).
  rewrite Ht in Ht'. apply app_inv_head in Ht'. subst evs'.
  destruct (messenger_projections evs Hev) as (Hf & Hp & Hc).
  exists evs. split; [done|]. split; [done|]. split; [|done].
  apply prefix_length in Hi. by rewrite length_map in Hi.
Qed.

(** What the trace gains from one playback step. *)
Lemma playbackStep_new_events sum cb doc w :
  ∃ evs, trace (playbackStep tabId sum cb doc w).2 = trace w ++ evs
    ∧ deliveriesOf (playbackRequest doc) (sends evs)
    ∧ (length (injections evs) ≤ length DEFAULT_SCRIPTS)%nat
    ∧ (playbackErrors evs = [] ∨ playbackErrors evs = [doc] ∧ is_Some cb)
    ∧ consoleErrors evs
      = match playbackRequest doc with Some _ => [] | None => ["unknown verb"] end
    ∧ fetches evs = 0%nat.
Proof.
  assert (Hsent : ∀ m w0,
    trace w0 = trace w →
    playbackOperation tabId sum doc w = sendMessage tabId m w0 →
    playbackRequest doc = Some m →
    ∃ evs, trace (playbackStep tabId sum cb doc w).2 = trace w ++ evs
      ∧ deliveriesOf (playbackRequest doc) (sends evs)
      ∧ (length (injections evs) ≤ length DEFAULT_SCRIPTS)%nat
      ∧ (playbackErrors evs = [] ∨ playbackErrors evs = [doc] ∧ is_Some cb)
      ∧ consoleErrors evs
        = match playbackRequest doc with Some _ => [] | None => ["unknown verb"] end
      ∧ fetches evs = 0%nat).
  { intros m w0 Htr Hop Hreq. rewrite playbackStep_unfold, Hop, Hreq.
    destruct (sendMessage_new_events m w0) as (evs & Ht & Hs & Hi & Hp & Hc & Hf).
    rewrite Htr in Ht.
    destruct (sendMessage tabId m w0) as [[ok|e] w1]; cbn [fst snd] in *.
    - destruct (truthy ok); [exists evs; by eauto 10|].
      destruct cb as [f|]; [|exists evs; by eauto 10].
      destruct (f doc (host w1)) as [thrown h].
      exists (evs ++ [EvOnPlaybackError doc]). cbn [snd trace].
      destruct (projections_app evs [EvOnPlaybackError doc]) as (-> & -> & -> & -> & ->).
      rewrite Ht, Hp, Hc, Hf, !app_nil_r, <- app_assoc. cbn.
      split; [done|]. split; [done|]. split; [done|]. split; [|done].
      right. by eauto.
    - exists evs. by eauto 10. }
  unfold playbackRequest in *.
  destruct (decide (verb doc = VERB.CREATE)) as [Hc|Hc];
    [|destruct (decide (verb doc = VERB.DELETE)) as [Hd|Hd]].
  - eapply Hsent; [|by apply playbackOperation_create|done]. done.
  - eapply Hsent; [|by apply playbackOperation_delete|done]. done.
  - rewrite playbackStep_unfold, playbackOperation_unknown by done. cbn [truthy].
    destruct cb as [f|]; [destruct (f doc _) as [thrown h]|]; cbn [snd trace].
    + exists [EvConsoleError "unknown verb"; EvOnPlaybackError doc].
      rewrite <- app_assoc. cbn. split; [done|]. split; [done|]. split; [lia|].
      split; [|done]. right. by eauto.
    + exists [EvConsoleError "unknown verb"]. cbn.
      split; [done|]. split; [done|]. split; [lia|]. split; [by left|done].
Qed.

(** What the trace gains from a run of steps: the steps taken are a
    prefix of the list, all of it when the run resolves, and up to and
    including the first step that rejects otherwise. *)
Lemma playback_run_new_events sum cb (documents : list Document) w :
  ∃ k groups evs,
    (k ≤ length documents)%nat
    ∧ trace (serial (map (playbackStep tabId sum cb) documents) w).2 = trace w ++ evs
    ∧ sends evs = concat groups
    ∧ Forall2 (λ doc group, deliveriesOf (playbackRequest doc) group)
        (take k documents) groups
    ∧ (length (injections evs) ≤ k * length DEFAULT_SCRIPTS)%nat
    ∧ playbackErrors evs `sublist_of` take k documents
    ∧ (cb = None → playbackErrors evs = [])
    ∧ consoleErrors evs
      = omap (λ doc, match playbackRequest doc with
                     | Some _ => None
                     | None => Some "unknown verb"
                     end)
          (take k documents)
    ∧ fetches evs = 0%nat
    ∧ match (serial (map (playbackStep tabId sum cb) documents) w).1 with
      | Resolved _ => k = length documents
      | Rejected e =>
          ∃ before doc after rs w1,
            documents = before ++ doc :: after
            ∧ k = S (length before)
            ∧ serial (map (playbackStep tabId sum cb) before) w = (Resolved rs, w1)
            ∧ playbackStep tabId sum cb doc w1
              = (Rejected e, (serial (map (playbackStep tabId sum cb) documents) w).2)
      end.
Proof.
  revert w. induction documents as [|doc documents IH]; intros w.
  - exists 0%nat, [], []. cbn. rewrite app_nil_r.
    split; [done|]. split; [done|]. split; [done|]. split; [constructor|].
    split; [lia|]. split; [done|]. done.
  - cbn [map serial]. unfold andThen.
    destruct (playbackStep_new_events sum cb doc w) as (ev1 & Ht1 & Hs1 & Hi1 & Hp1 & Hc1 & Hf1).
    destruct (playbackStep tabId sum cb doc w) as [[r|e] w1] eqn:Hstep; cbn [snd] in Ht1.
    + destruct (IH w1) as (k & groups & evs & Hk & Ht & Hs & Hg & Hi & Hp & Hn & Hc & Hf & Hres).
      exists (S k), (sends ev1 :: groups), (ev1 ++ evs).
      destruct (projections_app ev1 evs) as (-> & -> & -> & -> & ->).
      split; [cbn; lia|]. split.
      { destruct (serial _ w1) as [[rs|e] w2]; unfold resolve; cbn [snd] in *;
          by rewrite Ht, Ht1, <- app_assoc. }
      split; [by rewrite Hs|]. split; [cbn; by constructor|].
      split; [rewrite length_app; cbn in *; lia|]. split.
      { cbn [take]. destruct Hp1 as [-> | [-> _]]; cbn.
        - by apply sublist_cons.
        - by apply sublist_skip. }
      split.
      { intros ->. rewrite Hn by done. destruct Hp1 as [-> | [_ [? [=]]]]. done. }
      split.
      { cbn [take]. rewrite Hc, Hc1. change (doc :: take k documents)
          with ([doc] ++ take k documents). rewrite omap_app. cbn.
        by destruct (playbackRequest doc). }
      split; [lia|].
      destruct (serial _ w1) as [[rs'|e] w2]; unfold resolve; cbn [fst snd] in *.
      { by rewrite Hres. }
      destruct Hres as (before & d & after & rs & w3 & -> & -> & Hbefore & Hd).
      exists (doc :: before), d, after, (r :: rs), w3.
      split; [done|]. split; [done|]. split; [|done].
      cbn [map serial]. unfold andThen, resolve. by rewrite Hstep, Hbefore.
    + exists 1%nat, [sends ev1], ev1. cbn [take concat fst snd]. rewrite app_nil_r, take_0.
      split; [cbn; lia|]. split; [done|]. split; [done|].
      split; [by repeat constructor|]. split; [lia|]. split.
      { destruct Hp1 as [-> | [-> _]]; [apply sublist_nil_l|done]. }
      split.
      { intros ->. destruct Hp1 as [-> | [_ [? [=]]]]. done. }
      split.
      { rewrite Hc1. cbn. by destruct (playbackRequest doc). }
      split; [done|]. by exists [], doc, documents, [], w.
Qed.

Lemma playbackDocuments_trace cb (documents : list Document) w :
  trace (playbackDocuments tabId documents cb w).2
  = trace (serial (map (playbackStep tabId (length (store w)) cb) documents)
             (newCell (CNum 0) w).2).2
  ∧ ((∃ n, (playbackDocuments tabId documents cb w).1 = Resolved n)
     ↔ ∃ rs, (serial (map (playbackStep tabId (length (store w)) cb) documents)
                (newCell (CNum 0) w).2).1 = Resolved rs).
Proof.
  unfold playbackDocuments, andThen. cbn [newCell fst snd].
  destruct (serial _ _) as [[rs|e] w1]; cbn.
  - split; [done|]. split; eauto.
  - split; [done|]. split; intros [? [=]].
Qed.

(** A playback ends in the world its run of steps ends in, and rejects
    exactly as the run does. *)
Lemma playbackDocuments_run cb (documents : list Document) w :
  (playbackDocuments tabId documents cb w).2
  = (serial (map (playbackStep tabId (length (store w)) cb) documents)
       (newCell (CNum 0) w).2).2
  ∧ match (serial (map (playbackStep tabId (length (store w)) cb) documents)
             (newCell (CNum 0) w).2).1 with
    | Resolved _ => ∃ n, (playbackDocuments tabId documents cb w).1 = Resolved n
    | Rejected e => (playbackDocuments tabId documents cb w).1 = Rejected e
    end.
Proof.
  unfold playbackDocuments, andThen. cbn [newCell fst snd].
  destruct (serial _ _) as [[rs|e] w1]; cbn; [|done]. split; [done|]. by eexists.
Qed.

(** X6. The requests of a playback go out in the order of the log: the
    deliveries it makes are, entry by entry in list order, one delivery
    of the entry's create or delete request, or two around an injection,
    and none for an entry of unknown verb. They cover every entry when
    the playback resolves; when it rejects they stop with the first entry
    whose step rejects, every entry before it having resolved, and that
    step rejects because its operation rejects or because the callback
    throws. A playback of [n] entries so makes at most [2n] deliveries. *)
Theorem playback_requests_in_log_order cb (documents : list Document) w :
  let step := playbackStep tabId (length (store w)) cb in
  let run := playbackDocuments tabId documents cb w in
  ∃ k groups evs,
    (k ≤ length documents)%nat
    ∧ trace run.2 = trace w ++ evs
    ∧ sends evs = concat groups
    ∧ Forall2 (λ doc group, deliveriesOf (playbackRequest doc) group)
        (take k documents) groups
    ∧ (length (sends evs) ≤ 2 * k)%nat
    ∧ (length (injections evs) ≤ k * length DEFAULT_SCRIPTS)%nat
    ∧ match run.1 with
      | Resolved _ => k = length documents
      | Rejected e =>
          ∃ before doc after rs w1,
            documents = before ++ doc :: after
            ∧ k = S (length before)
            ∧ serial (map step before) (newCell (CNum 0) w).2 = (Resolved rs, w1)
            ∧ step doc w1 = (Rejected e, run.2)
            ∧ ((playbackOperation tabId (length (store w)) doc w1).1 = Rejected e
               ∨ callbackThrows tabId (length (store w)) cb doc w1 = true)
      end.
Proof.
  cbv zeta.
  destruct (playbackDocuments_run cb documents w) as [Hw Hout].
  destruct (playback_run_new_events (length (store w)) cb documents (newCell (CNum 0) w).2)
    as (k & groups & evs & Hk & Ht & Hs & Hg & Hi & _ & _ & _ & _ & Hall).
  exists k, groups, evs. rewrite Hw, Ht. cbn [newCell snd trace].
  split; [done|]. split; [done|]. split; [done|]. split; [done|]. split.
  { rewrite Hs. clear -Hg Hk. apply Forall2_length in Hg as Hlen.
    rewrite length_take in Hlen.
    assert (Hsum : (length (concat groups) ≤ 2 * length groups)%nat).
    { clear Hlen. induction Hg as [|doc g docs gs Hd _ IH]; [done|].
      cbn [concat]. rewrite length_app. cbn [length].
      unfold deliveriesOf in Hd.
      destruct (playbackRequest doc); [destruct Hd as [-> | ->]|subst g]; cbn; lia. }
    lia. }
  split; [done|].
  destruct (serial _ _).1 as [rs|e] eqn:Hrun.
  - destruct Hout as [n ->]. done.
  - rewrite Hout. destruct Hall as (before & d & after & rs & w1 & Hdocs & Hk' & Hbefore & Hd).
    exists before, d, after, rs, w1. split; [done|]. split; [done|]. split; [done|].
    split; [done|].
    destruct (playbackStep_rejects tabId (length (store w)) cb d w1 e) as [Hop | [_ Hcb]];
      [by rewrite Hd|by left|by right].
Qed.

(** X7. The failure callback is invoked only with entries of the list,
    in list order and at most once per entry; without a callback nothing
    is reported. A playback makes no fetch of the style definitions, and
    logs one line per entry of unknown verb it reaches. *)
Theorem playback_reports_entries_in_order cb (documents : list Document) w :
  ∃ k evs,
    (k ≤ length documents)%nat
    ∧ trace (playbackDocuments tabId documents cb w).2 = trace w ++ evs
    ∧ playbackErrors evs `sublist_of` take k documents
    ∧ (cb = None → playbackErrors evs = [])
    ∧ consoleErrors evs
      = omap (λ doc, match playbackRequest doc with
                     | Some _ => None
                     | None => Some "unknown verb"
                     end)
          (take k documents)
    ∧ fetches evs = 0%nat
    ∧ (∀ n, (playbackDocuments tabId documents cb w).1 = Resolved n → k = length documents).
Proof.
  destruct (playbackDocuments_trace cb documents w) as [Htr Hres].
  destruct (playback_run_new_events (length (store w)) cb documents (newCell (CNum 0) w).2)
    as (k & groups & evs & Hk & Ht & _ & _ & _ & Hp & Hn & Hc & Hf & Hall).
  exists k, evs. rewrite Htr, Ht. cbn [newCell snd trace].
  split; [done|]. split; [done|]. split; [done|]. split; [done|]. split; [done|].
  split; [done|].
  intros n Hn'. destruct (proj1 Hres (ex_intro _ n Hn')) as [rs Hrs].
  by rewrite Hrs in Hall.
Qed.

End PlaybackMore.

Section ComparisonMore.
Context {Host : Type} `{!HostAPI Host}.
Variable tabId : Z.
Implicit Types (w : World Host) (doc : Document).

Lemma rankFrom_is_Some (items : list HighlightDefinition) index c :
  c ∈ def_className <$> items → is_Some (rankFrom items index c).
Proof.
  revert index. induction items as [|d items IH]; intros index Hin.
  - by apply elem_of_nil in Hin.
  - cbn [rankFrom]. destruct (rankFrom items (S index) c) as [i|] eqn:Hi; [by eauto|].
    rewrite fmap_cons in Hin. apply elem_of_cons in Hin as [->|Hin].
    + rewrite decide_True by done. by eauto.
    + destruct (IH (S index) Hin) as [i Hi']. congruence.
Qed.

Lemma mapGet_Some_rank (items : list HighlightDefinition) (c : string) :
  mapGet (setRanks items 0 ∅) (Some c)
  = match rankFrom items 0 c with Some i => JNum (Z.of_nat i) | None => JUndefined end.
Proof. by rewrite mapGet_setRanks. Qed.

(** X8. The ranks the style comparison reads from its map: a class name
    gets [undefined] exactly when the list has no definition of it (as
    does an entry without class name); a rank is an index into the list;
    and two class names never share a rank, so entries of differently
    defined classes never tie. *)
Theorem style_ranks_are_distinct_indices (items : list HighlightDefinition) :
  (∀ c, mapGet (setRanks items 0 ∅) (Some c) = JUndefined ↔ c ∉ def_className <$> items)
  ∧ mapGet (setRanks items 0 ∅) None = JUndefined
  ∧ (∀ c v, mapGet (setRanks items 0 ∅) (Some c) = v → v ≠ JUndefined →
       ∃ i, v = JNum (Z.of_nat i) ∧ (i < length items)%nat
            ∧ def_className <$> items !! i = Some c)
  ∧ (∀ c1 c2,
       mapGet (setRanks items 0 ∅) (Some c1) = mapGet (setRanks items 0 ∅) (Some c2) →
       mapGet (setRanks items 0 ∅) (Some c1) ≠ JUndefined → c1 = c2).
Proof.
  split; [|split; [done|split]].
  - intros c. rewrite mapGet_Some_rank. split.
    + destruct (rankFrom items 0 c) eqn:Hr; [done|]. intros _. by eapply rankFrom_None.
    + intros Hnot. destruct (rankFrom items 0 c) eqn:Hr; [|done].
      destruct (rankFrom_Some items 0 c n Hr) as [_ Hl]. rewrite Nat.sub_0_r in Hl.
      exfalso. apply Hnot. apply list_elem_of_fmap.
      destruct (items !! n) as [d|] eqn:Hd; [|done]. cbn in Hl.
      exists d. split; [congruence|]. by eapply list_elem_of_lookup_2.
  - intros c v <- Hdef. rewrite mapGet_Some_rank in *.
    destruct (rankFrom items 0 c) as [i|] eqn:Hr; [|done].
    destruct (rankFrom_Some items 0 c i Hr) as [_ Hl]. rewrite Nat.sub_0_r in Hl.
    exists i. split; [done|]. split; [|done].
    destruct (items !! i) eqn:Hd; [|done]. by eapply lookup_lt_Some.
  - intros c1 c2. rewrite !mapGet_Some_rank.
    destruct (rankFrom items 0 c1) as [i|] eqn:H1; [|done].
    destruct (rankFrom items 0 c2) as [j|] eqn:H2; [|done].
    intros [= Hij] _. apply Nat2Z.inj in Hij. subst j.
    destruct (rankFrom_Some items 0 c1 i H1) as [_ Hl1].
    destruct (rankFrom_Some items 0 c2 i H2) as [_ Hl2]. congruence.
Qed.

(** X9. [getComparisonFunction] throws the string ["Unknown type"], at
    once and without any effect, exactly for the modes other than
    [time], [location] and [style]. The function returned for [time]
    resolves to the entry's stored date and calls nothing. *)
Theorem getComparisonFunction_modes (sortby : string) w :
  ((sortby = "time" ∨ sortby = "location" ∨ sortby = "style")
   ↔ ∃ comparison w', getComparisonFunction tabId sortby w = (Resolved comparison, w'))
  ∧ ((sortby ≠ "time" ∧ sortby ≠ "location" ∧ sortby ≠ "style")
     ↔ getComparisonFunction tabId sortby w = (Rejected (Thrown (JStr "Unknown type")), w))
  ∧ ∃ comparison,
      getComparisonFunction tabId "time" w = (Resolved comparison, w)
      ∧ ∀ doc w1, comparison doc w1 = (Resolved (JNum (date doc)), w1).
Proof.
  unfold getComparisonFunction.
  split; [|split].
  - split.
    + intros [-> | [-> | ->]]; cbn; by eauto.
    + destruct (decide (sortby = "time")); [by auto|].
      destruct (decide (sortby = "location")); [by auto|].
      destruct (decide (sortby = "style")); [by auto|].
      intros (c & w' & Hd). discriminate Hd.
  - split.
    + intros (H1 & H2 & H3). by rewrite !decide_False.
    + destruct (decide (sortby = "time")); [intros Hd; discriminate Hd|].
      destruct (decide (sortby = "location")); [intros Hd; discriminate Hd|].
      destruct (decide (sortby = "style")); [|done].
      unfold andThen, newCell. intros Hd. discriminate Hd.
  - eexists. split; [done|]. done.
Qed.

Lemma mapAt_pair_l (s : list Cell) (a b : gmap string nat) :
  mapAt (s ++ [CMap a; CMap b]) (length s) = a.
Proof. unfold mapAt. rewrite lookup_app_r by lia. by rewrite Nat.sub_diag. Qed.

Lemma mapAt_pair_r (s : list Cell) (a b : gmap string nat) :
  mapAt (s ++ [CMap a; CMap b]) (S (length s)) = b.
Proof.
  unfold mapAt. rewrite lookup_app_r by lia.
  by replace (S (length s) - length s)%nat with 1%nat by lia.
Qed.

Lemma insert_pair_l (s : list Cell) (a b c : Cell) :
  <[length s := c]> (s ++ [a; b]) = s ++ [c; b].
Proof. rewrite insert_app_r_alt by lia. by rewrite Nat.sub_diag. Qed.

Lemma insert_pair_r (s : list Cell) (a b c : Cell) :
  <[S (length s) := c]> (s ++ [a; b]) = s ++ [a; c].
Proof.
  rewrite insert_app_r_alt by lia.
  by replace (S (length s) - length s)%nat with 1%nat by lia.
Qed.

(** X10. Each call of [getComparisonFunction("style")] returns a function
    with a map of its own. After one function has fetched and filled
    its map, the other still finds its map empty and fetches for itself;
    each then answers from the list it fetched, so the two can rank the
    same entry differently when the stored definitions changed in
    between. *)
Theorem style_comparisons_have_own_maps
  (items items' : list HighlightDefinition) (h1 h2 : Host) w0 (doc : Document) :
  items ≠ [] → items' ≠ [] →
  storage_getAll (host w0) = (Resolved items, h1) →
  storage_getAll h1 = (Resolved items', h2) →
  let first := length (store w0) in
  let second := S (length (store w0)) in
  let w1 := mkWorld (host w0) (trace w0) (store w0 ++ [CMap ∅]) in
  let w2 := mkWorld (host w0) (trace w0) (store w0 ++ [CMap ∅; CMap ∅]) in
  let w3 := mkWorld h1 (trace w0 ++ [EvStorageGetAll])
              (store w0 ++ [CMap (setRanks items 0 ∅); CMap ∅]) in
  let w4 := mkWorld h2 (trace w0 ++ [EvStorageGetAll; EvStorageGetAll])
              (store w0 ++ [CMap (setRanks items 0 ∅); CMap (setRanks items' 0 ∅)]) in
  getComparisonFunction tabId "style" w0 = (Resolved (styleComparison first), w1)
  ∧ getComparisonFunction tabId "style" w1 = (Resolved (styleComparison second), w2)
  ∧ styleComparison first doc w2 = (Resolved (rankValue items (className doc)), w3)
  ∧ styleComparison second doc w3 = (Resolved (rankValue items' (className doc)), w4)
  ∧ styleComparison first doc w4 = (Resolved (rankValue items (className doc)), w4)
  ∧ styleComparison second doc w4 = (Resolved (rankValue items' (className doc)), w4).
Proof.
  intros Hne Hne' Hget Hget' first second w1 w2 w3 w4.
  split; [done|]. split.
  { change (getComparisonFunction tabId "style" w1)
      with (Resolved (styleComparison (Host:=Host) (length (store w1))),
            mkWorld (host w1) (trace w1) (store w1 ++ [CMap ∅])).
    subst second w1 w2. cbn [host trace store]. rewrite length_app. cbn [length].
    replace (length (store w0) + 1)%nat with (S (length (store w0))) by lia.
    by rewrite <- app_assoc. }
  split.
  { rewrite (styleComparison_fetch first doc w2 items h1).
    - subst w2 w3 first. cbn [host trace store]. by rewrite insert_pair_l.
    - subst w2 first. cbn [store]. rewrite length_app. cbn. lia.
    - subst w2 first. cbn [store]. by rewrite mapAt_pair_l.
    - done. }
  split.
  { rewrite (styleComparison_fetch second doc w3 items' h2).
    - subst w3 w4 second. cbn [host trace store]. rewrite insert_pair_r.
      by rewrite <- app_assoc.
    - subst w3 second. cbn [store]. rewrite length_app. cbn. lia.
    - subst w3 second. cbn [store]. by rewrite mapAt_pair_r.
    - done. }
  split.
  { rewrite styleComparison_cached.
    - subst w4 first. cbn [store]. by rewrite mapAt_pair_l, mapGet_setRanks.
    - subst w4 first. cbn [store]. rewrite mapAt_pair_l. by apply setRanks_nonempty. }
  rewrite styleComparison_cached.
  - subst w4 second. cbn [store]. by rewrite mapAt_pair_r, mapGet_setRanks.
  - subst w4 second. cbn [store]. rewrite mapAt_pair_r. by apply setRanks_nonempty.
Qed.

(** X11. When the fetch of the definitions rejects, the invocation of
    the style comparison rejects with the same reason and leaves the map
    empty, so nothing is memoized: the next invocation fetches again,
    and resolves if that fetch does. *)
Theorem style_comparison_failed_fetch_not_memoized
  (e : JsError) (h1 h2 : Host) (items : list HighlightDefinition) w0 (doc : Document) :
  storage_getAll (host w0) = (Rejected e, h1) →
  storage_getAll h1 = (Resolved items, h2) →
  let cell := length (store w0) in
  let created := mkWorld (host w0) (trace w0) (store w0 ++ [CMap ∅]) in
  let failed := mkWorld h1 (trace w0 ++ [EvStorageGetAll]) (store w0 ++ [CMap ∅]) in
  let filled := mkWorld h2 (trace w0 ++ [EvStorageGetAll; EvStorageGetAll])
                  (store w0 ++ [CMap (setRanks items 0 ∅)]) in
  getComparisonFunction tabId "style" w0 = (Resolved (styleComparison cell), created)
  ∧ styleComparison cell doc created = (Rejected e, failed)
  ∧ styleComparison cell doc failed = (Resolved (rankValue items (className doc)), filled).
Proof.
  intros Hfail Hget cell created failed filled. split; [done|]. split.
  - unfold styleComparison, andThen, readMap. cbn [fst snd].
    subst created cell. cbn [store]. rewrite mapAt_fresh.
    change (size (∅ : gmap string nat) =? 0)%nat with true. cbn iota.
    unfold getAllDefinitions, andThen, hostCall, settle. cbn [host trace store].
    by rewrite Hfail.
  - rewrite (styleComparison_fetch cell doc failed items h2).
    + subst failed filled cell. cbn [host trace store].
      by rewrite insert_fresh_cell, <- app_assoc.
    + subst failed cell. cbn [store]. rewrite length_app. cbn. lia.
    + subst failed cell. cbn [store]. by rewrite mapAt_fresh.
    + done.
Qed.

(** X12. How the location comparison fails. A rejection of either
    request is its rejection. When the highlight is reported absent, the
    rectangle is never asked for: every delivery made is the presence
    request. A [null] rectangle makes the read of [top] throw, which
    rejects with a [TypeError]; a rectangle without [top] resolves to
    [undefined]. *)
Theorem location_comparison_failures doc w :
  (∀ e w1,
     isHighlightInDOM tabId (JStr (_id doc)) w = (Rejected e, w1) →
     locationComparison tabId doc w = (Rejected e, w1))
  ∧ (∀ present w1,
       isHighlightInDOM tabId (JStr (_id doc)) w = (Resolved present, w1) →
       truthy present = false →
       ∃ evs, trace (locationComparison tabId doc w).2 = trace w ++ evs
         ∧ Forall (λ m : JsObject, m !! "id" = Some (JStr MESSAGE_ID.IS_HIGHLIGHT_IN_DOM))
             (sends evs))
  ∧ (∀ present w1 e w2,
       isHighlightInDOM tabId (JStr (_id doc)) w = (Resolved present, w1) →
       truthy present = true →
       getHighlightBoundingClientRect tabId (JStr (_id doc)) w1 = (Rejected e, w2) →
       locationComparison tabId doc w = (Rejected e, w2))
  ∧ (∀ present w1 w2,
       isHighlightInDOM tabId (JStr (_id doc)) w = (Resolved present, w1) →
       truthy present = true →
       getHighlightBoundingClientRect tabId (JStr (_id doc)) w1 = (Resolved JNull, w2) →
       ∃ m, locationComparison tabId doc w = (Rejected (TypeError m), w2))
  ∧ (∀ present w1 (rect : JsObject) w2,
       isHighlightInDOM tabId (JStr (_id doc)) w = (Resolved present, w1) →
       truthy present = true →
       getHighlightBoundingClientRect tabId (JStr (_id doc)) w1
         = (Resolved (JObj rect), w2) →
       rect !! "top" = None →
       locationComparison tabId doc w = (Resolved JUndefined, w2)).
Proof.
  unfold locationComparison, andThen.
  split; [|split; [|split; [|split]]].
  - intros e w1 ->. done.
  - intros present w1 Hin Hp. rewrite Hin, Hp. cbn [reject snd].
    unfold isHighlightInDOM in Hin.
    match type of Hin with sendMessage tabId ?m w = _ =>
      destruct (sendMessage_deliveries tabId m w) as (evs & Ht & Hs & _) end.
    rewrite Hin in Ht. cbn [snd] in Ht. exists evs. split; [done|].
    destruct Hs as [-> | ->]; by repeat constructor.
  - intros present w1 e w2 -> -> ->. done.
  - intros present w1 w2 -> -> ->. cbn. by eexists.
  - intros present w1 rect w2 -> -> -> Htop. unfold settle, js_top. by rewrite Htop.
Qed.

End ComparisonMore.

Section OverviewMore.
Context {Host : Type} `{!HostAPI Host}.
Variable tabId : Z.
Implicit Types (w : World Host) (doc : Document).

Lemma overviewTitles_lookup (definitions : list HighlightDefinition)
  (titles : gmap string string) (c : string) :
  fold_left (λ titles d, <[ def_className d := def_title d ]> titles) definitions titles !! c
  = match last (filter (λ d, def_className d = c) definitions) with
    | Some d => Some (def_title d)
    | None => titles !! c
    end.
Proof.
  revert titles. induction definitions as [|d definitions IH]; intros titles; [done|].
  cbn [fold_left]. rewrite IH, filter_cons.
  destruct (decide (def_className d = c)) as [Hd|Hd].
  - rewrite last_cons. destruct (last (filter _ definitions)); [done|].
    by rewrite <- Hd, lookup_insert_eq.
  - destruct (last (filter _ definitions)); [done|]. by rewrite lookup_insert_ne.
Qed.

(** X13. The title shown for a class name is the title of its last
    definition in the stored list; a class name without definition has no
    title and its subheading reads [undefined]. *)
Theorem overview_title_of_last_definition (definitions : list HighlightDefinition) :
  (∀ c, overviewTitles definitions !! c
        = def_title <$> last (filter (λ d, def_className d = c) definitions))
  ∧ (∀ c, c ∉ def_className <$> definitions →
          template (titlesGet (overviewTitles definitions) (Some c)) = "undefined")
  ∧ template (titlesGet (overviewTitles definitions) None) = "undefined".
Proof.
  assert (Hlook : ∀ c, overviewTitles definitions !! c
        = def_title <$> last (filter (λ d, def_className d = c) definitions)).
  { intros c. unfold overviewTitles. rewrite overviewTitles_lookup, lookup_empty.
    by destruct (last _). }
  split; [done|]. split; [|done].
  intros c Hnot. unfold titlesGet. cbn. rewrite Hlook.
  destruct (last _) as [d|] eqn:Hlast; [|done].
  exfalso. apply Hnot. apply last_Some_elem_of in Hlast.
  apply list_elem_of_filter in Hlast as [Hc Hin].
  apply list_elem_of_fmap. by exists d.
Qed.

(** The handlers before the rendering: three requests to the host, then
    the sort when a comparator is given. *)
Lemma overviewDocuments_fetches
  (comparator : option (Document -> Promise Host JsValue)) (invert : bool) w :
  overviewDocuments tabId comparator invert w =
  let '(t, h1) := chrome_tabs_get tabId (host w) in
  let '(definitions, h2) := storage_getAll h1 in
  let fetched := trace w ++ [EvTabsGet tabId; EvStorageGetAll] in
  match definitions, t with
  | Rejected e, _ => (Rejected e, mkWorld h2 fetched (store w))
  | Resolved _, None =>
      (Rejected (TypeError "Cannot read properties of undefined"),
       mkWorld h2 fetched (store w))
  | Resolved definitions, Some tab =>
      let key := DB_formatMatch (tab_url tab) in
      let '(docs, h3) := db_getMatchingDocuments key true h2 in
      let queried := fetched ++ [EvGetMatchingDocuments key true] in
      match docs with
      | Rejected e => (Rejected e, mkWorld h3 queried (store w))
      | Resolved docs =>
          match comparator with
          | Some c =>
              match DB_sortDocuments docs c (mkWorld h3 queried (store w)) with
              | (Resolved sorted, w') =>
                  (Resolved (tab, overviewTitles definitions,
                             if invert then rev sorted else sorted), w')
              | (Rejected e, w') => (Rejected e, w')
              end
          | None =>
              (Resolved (tab, overviewTitles definitions, if invert then rev docs else docs),
               mkWorld h3 queried (store w))
          end
      end
  end.
Proof.
  unfold overviewDocuments, get, getAllDefinitions, andThen, hostCall, settle, resolve, reject.
  cbn [host trace store].
  destruct (chrome_tabs_get tabId (host w)) as [t h1]. cbn [host trace store].
  destruct (storage_getAll h1) as [[definitions|e] h2]; cbn [host trace store].
  - destruct t as [tab|]; rewrite <- !app_assoc; [|done]. cbn [app host trace store].
    destruct (db_getMatchingDocuments _ true h2) as [[docs|e] h3];
      cbn [host trace store]; rewrite <- !app_assoc; [|done]. cbn [app].
    destruct comparator as [c|]; [|done].
    by destruct (DB_sortDocuments docs c _) as [[sorted|e] w'].
  - rewrite <- !app_assoc. by destruct t.
Qed.

(** The handlers before the rendering, when no comparator is given. *)
Lemma overviewDocuments_native (invert : bool) w :
  overviewDocuments tabId None invert w =
  let '(t, h1) := chrome_tabs_get tabId (host w) in
  let '(definitions, h2) := storage_getAll h1 in
  let fetched := trace w ++ [EvTabsGet tabId; EvStorageGetAll] in
  match definitions, t with
  | Rejected e, _ => (Rejected e, mkWorld h2 fetched (store w))
  | Resolved _, None =>
      (Rejected (TypeError "Cannot read properties of undefined"),
       mkWorld h2 fetched (store w))
  | Resolved definitions, Some tab =>
      let key := DB_formatMatch (tab_url tab) in
      let '(docs, h3) := db_getMatchingDocuments key true h2 in
      let queried := fetched ++ [EvGetMatchingDocuments key true] in
      match docs with
      | Rejected e => (Rejected e, mkWorld h3 queried (store w))
      | Resolved docs =>
          (Resolved (tab, overviewTitles definitions, if invert then rev docs else docs),
           mkWorld h3 queried (store w))
      end
  end.
Proof. apply overviewDocuments_fetches. Qed.

(** The rendering leaves the world as it finds it. *)
Lemma overviewText_world (format : string) (tab : Tab) (titles : gmap string string)
  (docs : list Document) w :
  (overviewText format tab titles docs w).2 = w.
Proof.
  unfold overviewText. destruct (decide _); [|done].
  by destruct (fold_left _ _ _) as [markdown current].
Qed.

(** X14. Without comparator the overview makes three requests, in this
    order: for the tab, for the style definitions, and for the documents
    that match the tab's URL with deleted ones excluded; whatever the
    format, these three are all the events of the run. In both markdown
    formats the documents are rendered in the order the database returned
    them, reversed when [invert] is set, the footer following in the
    format that has one; nothing is sorted. (The footer's
    [chrome.i18n.getMessage] lookups are synchronous reads, modelled by a
    pure function and not recorded as events.) *)
Theorem overview_without_comparator (invert : bool) w
  (tab : Tab) (h1 h2 h3 : Host) (definitions : list HighlightDefinition)
  (docs : list Document) :
  chrome_tabs_get tabId (host w) = (Some tab, h1) →
  storage_getAll h1 = (Resolved definitions, h2) →
  db_getMatchingDocuments (DB_formatMatch (tab_url tab)) true h2 = (Resolved docs, h3) →
  let body := overviewHeading tab
              +:+ overviewEntries (overviewTitles definitions) None
                    (if invert then rev docs else docs) in
  let w' := mkWorld h3
              (trace w ++ [EvTabsGet tabId; EvStorageGetAll;
                           EvGetMatchingDocuments (DB_formatMatch (tab_url tab)) true])
              (store w) in
  getFormattedOverviewText tabId OVERVIEW_FORMAT.MARKDOWN_NO_FOOTER None invert w
  = (Resolved body, w')
  ∧ getFormattedOverviewText tabId OVERVIEW_FORMAT.MARKDOWN None invert w
    = (Resolved (body +:+ overviewFooter), w')
  ∧ ∀ format, (getFormattedOverviewText tabId format None invert w).2 = w'.
Proof.
  intros Htab Hdefs Hdocs. cbv zeta. unfold getFormattedOverviewText, andThen.
  rewrite overviewDocuments_native, Htab, Hdefs. cbn zeta. rewrite Hdocs.
  rewrite overviewText_markdown_no_footer, overviewText_markdown, <- app_assoc.
  split; [done|]. split; [done|]. intros format. by rewrite overviewText_world.
Qed.

(** X15. A failure before the rendering ends the overview there,
    whatever the format and the comparator. If the definitions cannot be
    fetched the overview rejects with that reason; if the tab does not
    exist it rejects with a [TypeError] once the definitions are fetched;
    in both cases the database is never queried. If the database rejects,
    the overview rejects with its reason. In all three cases the
    comparator is never used. *)
Theorem overview_fetch_failures (format : string)
  (comparator : option (Document -> Promise Host JsValue)) (invert : bool) w :
  (∀ t h1 e h2,
     chrome_tabs_get tabId (host w) = (t, h1) →
     storage_getAll h1 = (Rejected e, h2) →
     getFormattedOverviewText tabId format comparator invert w
     = (Rejected e, mkWorld h2 (trace w ++ [EvTabsGet tabId; EvStorageGetAll]) (store w)))
  ∧ (∀ h1 definitions h2,
       chrome_tabs_get tabId (host w) = (None, h1) →
       storage_getAll h1 = (Resolved definitions, h2) →
       ∃ m, getFormattedOverviewText tabId format comparator invert w
            = (Rejected (TypeError m),
               mkWorld h2 (trace w ++ [EvTabsGet tabId; EvStorageGetAll]) (store w)))
  ∧ (∀ tab h1 definitions h2 e h3,
       chrome_tabs_get tabId (host w) = (Some tab, h1) →
       storage_getAll h1 = (Resolved definitions, h2) →
       db_getMatchingDocuments (DB_formatMatch (tab_url tab)) true h2 = (Rejected e, h3) →
       getFormattedOverviewText tabId format comparator invert w
       = (Rejected e,
          mkWorld h3
            (trace w ++ [EvTabsGet tabId; EvStorageGetAll;
                         EvGetMatchingDocuments (DB_formatMatch (tab_url tab)) true])
            (store w))).
Proof.
  unfold getFormattedOverviewText, andThen. rewrite overviewDocuments_fetches.
  split; [|split].
  - intros t h1 e h2 -> ->. done.
  - intros h1 definitions h2 -> ->. by eexists.
  - intros tab h1 definitions h2 e h3 -> ->. cbn zeta. intros ->.
    by rewrite <- app_assoc.
Qed.

(** X16. A format other than the two markdown formats is only found out
    at the end: the tab, the definitions and the documents are fetched
    and ordered as for a known format, and then the overview rejects with
    the unknown-format error; no text is produced. A failure of the
    fetches comes first. *)
Theorem overview_unknown_format (format : string)
  (comparator : option (Document -> Promise Host JsValue)) (invert : bool) w :
  format ≠ OVERVIEW_FORMAT.MARKDOWN →
  format ≠ OVERVIEW_FORMAT.MARKDOWN_NO_FOOTER →
  getFormattedOverviewText tabId format comparator invert w
  = match overviewDocuments tabId comparator invert w with
    | (Resolved _, w') => (Rejected (Error "unknown format"), w')
    | (Rejected e, w') => (Rejected e, w')
    end.
Proof.
  intros H1 H2. unfold getFormattedOverviewText, andThen.
  destruct (overviewDocuments tabId comparator invert w) as [[[[tab titles] docs]|e] w']; [|done].
  unfold overviewText. rewrite decide_False; [done|]. by intros [?|?].
Qed.

End OverviewMore.

(** ** Further runs on the scripted hosts *)

(** X5 at a highlight id. *)
Lemma select_truthy_carries_field_witness :
  let w := Scripted.world (Scripted.answering [JNull]) in
  truthy (JStr "a") = true
  ∧ selectHighlight 7 (JStr "a") w
    = sendMessage 7 {[ "id" := JStr MESSAGE_ID.SELECT_HIGHLIGHT; "highlightId" := JStr "a" ]} w
  ∧ selectRange 7 (JStr "a") w
    = sendMessage 7 {[ "id" := JStr MESSAGE_ID.SELECT_RANGE; "xrange" := JStr "a" ]} w.
Proof.
  cbv zeta. split; [reflexivity|].
  pose proof (select_truthy_carries_field 7 (JStr "a")
                (Scripted.world (Scripted.answering [JNull])) eq_refl)
    as (Hh & Hr & _).
  exact (conj Hh Hr).
Defined.

(** X10 on the scripted host, whose store answers both fetches with the
    same two definitions. *)
Lemma style_comparisons_have_own_maps_witness :
  let h := Scripted.answering [] in
  let w0 := Scripted.world h in
  let w2 := mkWorld h [] [CMap ∅; CMap ∅] in
  let w3 := mkWorld h [EvStorageGetAll] [CMap (setRanks Scripted.styles 0 ∅); CMap ∅] in
  let w4 := mkWorld h [EvStorageGetAll; EvStorageGetAll]
              [CMap (setRanks Scripted.styles 0 ∅); CMap (setRanks Scripted.styles 0 ∅)] in
  Scripted.styles ≠ []
  ∧ storage_getAll (host w0) = (Resolved Scripted.styles, h)
  ∧ styleComparison 0 Scripted.docC w2
    = (Resolved (rankValue Scripted.styles (className Scripted.docC)), w3)
  ∧ styleComparison 1 Scripted.docC w3
    = (Resolved (rankValue Scripted.styles (className Scripted.docC)), w4).
Proof.
  cbv zeta.
  assert (Hne : Scripted.styles ≠ []) by done.
  split; [exact Hne|]. split; [reflexivity|].
  pose proof (style_comparisons_have_own_maps 7 Scripted.styles Scripted.styles
                (Scripted.answering []) (Scripted.answering [])
                (Scripted.world (Scripted.answering [])) Scripted.docC
                Hne Hne eq_refl eq_refl) as (_ & _ & H3 & H4 & _).
  exact (conj H3 H4).
Defined.

(** X11 on a host whose store fails once. *)
Lemma style_comparison_failed_fetch_not_memoized_witness :
  let h0 : Flaky.Host := (1%nat, Scripted.answering []) in
  let h1 : Flaky.Host := (0%nat, Scripted.answering []) in
  let w0 := mkWorld h0 [] [] in
  let failed := mkWorld h1 [EvStorageGetAll] [CMap ∅] in
  let filled := mkWorld h1 [EvStorageGetAll; EvStorageGetAll]
                  [CMap (setRanks Scripted.styles 0 ∅)] in
  storage_getAll (host w0) = (Rejected (Error "storage unavailable"), h1)
  ∧ storage_getAll h1 = (Resolved Scripted.styles, h1)
  ∧ styleComparison 0 Scripted.docC (mkWorld h0 [] [CMap ∅])
    = (Rejected (Error "storage unavailable"), failed)
  ∧ styleComparison 0 Scripted.docC failed
    = (Resolved (rankValue Scripted.styles (className Scripted.docC)), filled).
Proof.
  cbv zeta. split; [reflexivity|]. split; [reflexivity|].
  pose proof (style_comparison_failed_fetch_not_memoized 7
                (Error "storage unavailable")
                ((0%nat, Scripted.answering []) : Flaky.Host)
                ((0%nat, Scripted.answering []) : Flaky.Host)
                Scripted.styles
                (mkWorld ((1%nat, Scripted.answering []) : Flaky.Host) [] [])
                Scripted.docC eq_refl eq_refl) as (_ & H2 & H3).
  exact (conj H2 H3).
Defined.

(** X14 on the scripted host: three documents in database order, in
    both markdown formats. *)
Lemma overview_without_comparator_witness :
  let h := Scripted.answering [] in
  let w := Scripted.world h in
  let body := overviewHeading Scripted.page
              +:+ overviewEntries (overviewTitles Scripted.styles) None
                    [Scripted.docA; Scripted.docB; Scripted.docC] in
  let w' := mkWorld h
              [EvTabsGet 7; EvStorageGetAll;
               EvGetMatchingDocuments (DB_formatMatch (tab_url Scripted.page)) true] [] in
  chrome_tabs_get 7 (host w) = (Some Scripted.page, h)
  ∧ storage_getAll h = (Resolved Scripted.styles, h)
  ∧ db_getMatchingDocuments (DB_formatMatch (tab_url Scripted.page)) true h
    = (Resolved [Scripted.docA; Scripted.docB; Scripted.docC], h)
  ∧ getFormattedOverviewText 7 OVERVIEW_FORMAT.MARKDOWN_NO_FOOTER None false w
    = (Resolved body, w')
  ∧ getFormattedOverviewText 7 OVERVIEW_FORMAT.MARKDOWN None false w
    = (Resolved (body +:+ overviewFooter), w').
Proof.
  cbv zeta. split; [reflexivity|]. split; [reflexivity|]. split; [reflexivity|].
  pose proof (overview_without_comparator 7 false (Scripted.world (Scripted.answering []))
                Scripted.page (Scripted.answering []) (Scripted.answering [])
                (Scripted.answering []) Scripted.styles
                [Scripted.docA; Scripted.docB; Scripted.docC] eq_refl eq_refl eq_refl)
    as (Hplain & Hfooter & _).
  exact (conj Hplain Hfooter).
Defined.

(** X16 on the scripted host, for the format ["html"]. *)
Lemma overview_unknown_format_witness :
  let w := Scripted.world (Scripted.answering []) in
  "html" ≠ OVERVIEW_FORMAT.MARKDOWN
  ∧ "html" ≠ OVERVIEW_FORMAT.MARKDOWN_NO_FOOTER
  ∧ getFormattedOverviewText 7 "html" None false w
    = match overviewDocuments 7 None false w with
      | (Resolved _, w') => (Rejected (Error "unknown format"), w')
      | (Rejected e, w') => (Rejected e, w')
      end.
Proof.
  cbv zeta.
  assert (H1 : "html" ≠ OVERVIEW_FORMAT.MARKDOWN) by done.
  assert (H2 : "html" ≠ OVERVIEW_FORMAT.MARKDOWN_NO_FOOTER) by done.
  split; [exact H1|]. split; [exact H2|].
  exact (overview_unknown_format 7 "html" None false
           (Scripted.world (Scripted.answering [])) H1 H2).
Defined.

(** The overview of a tab that does not exist: the definitions are
    fetched, the database is not asked. *)
Example overview_of_missing_tab :
  let h := Scripted.mkHost [] [] None Scripted.styles [Scripted.docA] in
  let r := getFormattedOverviewText 7 OVERVIEW_FORMAT.MARKDOWN None false (Scripted.world h) in
  r.1 = Rejected (TypeError "Cannot read properties of undefined")
  ∧ trace r.2 = [EvTabsGet 7; EvStorageGetAll].
Proof. vm_compute. done. Qed.

(** A rectangle answered as [null] for a highlight reported present. *)
Example location_of_null_rect :
  let w := Scripted.world (Scripted.answering [JBool true; JNull]) in
  (locationComparison 7 Scripted.docA w).1
  = Rejected (TypeError "Cannot read properties of null").
Proof. vm_compute. done. Qed.

(** Playback of a create, an update and a delete where the delete is
    answered [false]: two requests in log order, the update and the
    delete reported, one line logged, net count zero. *)
Example playback_with_unknown_verb :
  let r := playbackDocuments 7 [Scripted.docA; Scripted.docUpdate; Scripted.docDeleteA]
             (Some Scripted.report)
             (Scripted.world (Scripted.answering [JBool true; JBool false])) in
  r.1 = Resolved 0
  ∧ sends (trace r.2) = omap playbackRequest [Scripted.docA; Scripted.docDeleteA]
  ∧ playbackErrors (trace r.2) = [Scripted.docUpdate; Scripted.docDeleteA]
  ∧ consoleErrors (trace r.2) = ["unknown verb"].
Proof. cbv zeta. repeat split; vm_compute; reflexivity. Qed.

(** An injection of three files whose second the host refuses: the
    promise rejects with the host's message and the third file is never
    injected. *)
Example executeScript_stops_at_failure :
  let refused := {| lastError := Some "Could not load file"; result := JUndefined |} in
  let h := Scripted.mkHost [] [Scripted.answer (JArr [JNum 1]); refused]
             (Some Scripted.page) [] [] in
  let r := executeScript 7 (FileArray ["a.js"; "b.js"; "c.js"]) ∅ (Scripted.world h) in
  r.1 = Rejected (Error "Could not load file")
  ∧ trace r.2 = injectEvents 7 ∅ ["a.js"; "b.js"].
Proof. cbv zeta. split; vm_compute; reflexivity. Qed.

(** An injection of two files the host accepts: the result is the array
    of the two results, in order. *)
Example executeScript_collects_results :
  let h := Scripted.mkHost [] [Scripted.answer (JNum 1); Scripted.answer (JNum 2)]
             (Some Scripted.page) [] [] in
  let r := executeScript 7 (FileArray ["a.js"; "b.js"]) ∅ (Scripted.world h) in
  r.1 = Resolved (JArr [JNum 1; JNum 2])
  ∧ trace r.2 = injectEvents 7 ∅ ["a.js"; "b.js"].
Proof. cbv zeta. split; vm_compute; reflexivity. Qed.

(** Playback of three creates on a page that answers the first and then
    loses its content script, where nothing can be injected: the second
    create rejects, its request went out once and the third entry is
    never attempted. *)
Example playback_stops_at_rejection :
  let refused := {| lastError := Some "Cannot access a chrome:// URL"; result := JUndefined |} in
  let h := Scripted.mkHost [Scripted.answer (JBool true)] [refused]
             (Some Scripted.page) Scripted.styles [] in
  let r := playbackDocuments 7 [Scripted.docA; Scripted.docB; Scripted.docC] None
             (Scripted.world h) in
  r.1 = Rejected (Error "Cannot access a chrome:// URL")
  ∧ sends (trace r.2) = omap playbackRequest [Scripted.docA; Scripted.docB]
  ∧ length (injections (trace r.2)) = 1%nat.
Proof. cbv zeta. repeat split; vm_compute; reflexivity. Qed.

(** Playback with a callback that throws on the first report: the
    playback rejects with what was thrown, after the request of the
    reported entry and before the next. *)
Example playback_stops_at_throwing_callback :
  let r := playbackDocuments 7 [Scripted.docA; Scripted.docUpdate; Scripted.docB]
             (Some Scripted.refuse)
             (Scripted.world (Scripted.answering [JBool true; JBool true])) in
  r.1 = Rejected (Error "report failed")
  ∧ sends (trace r.2) = omap playbackRequest [Scripted.docA]
  ∧ playbackErrors (trace r.2) = [Scripted.docUpdate]
  ∧ consoleErrors (trace r.2) = ["unknown verb"].
Proof. cbv zeta. repeat split; vm_compute; reflexivity. Qed.
